(** * Expense tracker: share computation, pairwise balances and settlements

    A shallow embedding of [src/main.py] (classes [Transaction] and
    [ExpenseManager]) together with the properties of its debt accounting
    and settlement engine.

    Modelling conventions.
    - A finite [decimal.Decimal] is modelled by the rational number it
      denotes ([Q], compared with [==]): Python compares Decimals by value,
      and every arithmetic operation returns the exact result rounded to the
      default context (28 significant digits, ROUND_HALF_EVEN).  The special
      values (NaN, infinities) and the exponent limits of the context are
      outside the model.
    - A Python [dict] is an association list in insertion order (iteration
      order decides the order of rounded sums and the tie-break of the
      stable sort); its keys are pairwise distinct.
    - Exceptions are explicit error results; the fresh identifiers drawn from
      [uuid.uuid4()] and the creation time are arguments of the operations. *)

From Stdlib Require Import ZArith QArith Qabs Qpower Qround Qminmax List String
  Bool Lia Lqa Permutation.
Import ListNotations.

Set Implicit Arguments.

Open Scope string_scope.
Open Scope list_scope.

(* ===================================================================== *)
(** * Decimal arithmetic in the default context *)
(* ===================================================================== *)

Module Decimal.

Local Open Scope Z_scope.

(** Context precision: [getcontext().prec]. *)
Definition prec : Z := 28.

Fixpoint digits_aux (fuel : nat) (z : Z) : Z :=
  match fuel with
  | O => 1
  | S f => if z <? 10 then 1 else 1 + digits_aux f (z / 10)
  end.

(** Number of decimal digits of a positive integer. *)
Definition digits (z : Z) : Z := digits_aux (Z.to_nat (Z.log2 z)) z.

(** [10 ^ e] for any integer exponent. *)
Definition pow10 (e : Z) : Q := Qpower 10 e.

(** Integer nearest to [q], ties to the even neighbour. *)
Definition half_even (q : Q) : Z :=
  let num := Qnum q in
  let den := Zpos (Qden q) in
  let f := num / den in
  match 2 * (num mod den) ?= den with
  | Lt => f
  | Gt => f + 1
  | Eq => if Z.even f then f else f + 1
  end.

(** The exponent at which the coefficient of a positive [x] has [prec]
    digits: [10 ^ (prec - 1) <= x / 10 ^ e < 10 ^ prec]. *)
Definition exponent_of (x : Q) : Z :=
  let e := digits (Qnum x) - digits (Zpos (Qden x)) - (prec - 1) in
  if Qle_bool (pow10 (prec - 1)) (x / pow10 e) then e else e - 1.

Definition round_pos (x : Q) : Q :=
  let e := exponent_of x in
  Qred (inject_Z (half_even (x / pow10 e)) * pow10 e).

(** Rounding of an exact result to the context: [prec] significant digits,
    ROUND_HALF_EVEN. *)
Definition ctx_round (x : Q) : Q :=
  let r := Qred x in
  match Qnum r with
  | Z0 => 0%Q
  | Zpos _ => round_pos r
  | Zneg _ => Qopp (round_pos (Qopp r))
  end.

Local Open Scope Q_scope.

(** [x + y], [x - y], [x * y], [x / y], [abs(x)], [-x] on Decimals. *)
Definition add (x y : Q) : Q := ctx_round (x + y).
Definition sub (x y : Q) : Q := ctx_round (x - y).
Definition mul (x y : Q) : Q := ctx_round (x * y).
Definition div (x y : Q) : Q := ctx_round (x / y).
Definition abs (x : Q) : Q := ctx_round (Qabs x).
Definition neg (x : Q) : Q := ctx_round (- x).

(** A number with at most [prec] significant digits: the values on which
    the context rounding is the identity. *)
Definition representable (x : Q) : Prop :=
  exists c e, (Z.abs c < 10 ^ prec)%Z /\ x == inject_Z c * pow10 e.

(** Comparisons are exact. *)
Definition eqb (x y : Q) : bool := Qeq_bool x y.
Definition leb (x y : Q) : bool := Qle_bool x y.
Definition ltb (x y : Q) : bool := negb (Qle_bool y x).

(** The builtins [max(x, y)] and [min(x, y)]: the first argument unless the
    second is strictly larger (smaller). *)
Definition max (x y : Q) : Q := if ltb x y then y else x.
Definition min (x y : Q) : Q := if ltb y x then y else x.

(** The builtin [sum]: starts from the int 0 and adds from the left. *)
Definition sum (l : list Q) : Q := fold_left add l 0.

(** The exact (unrounded) sum, used to state properties. *)
Definition exact_sum (l : list Q) : Q := fold_right Qplus 0 l.

End Decimal.

(* ===================================================================== *)
(** * Dictionaries in insertion order *)
(* ===================================================================== *)

Section Dict.

Variable V : Type.

Definition dict := list (string * V).

Definition dict_keys (d : dict) : list string := map fst d.
Definition dict_values (d : dict) : list V := map snd d.

(** [d.get(k)] *)
Fixpoint dict_get (d : dict) (k : string) : option V :=
  match d with
  | [] => None
  | (k', v) :: r => if String.eqb k' k then Some v else dict_get r k
  end.

(** [k in d] *)
Definition dict_mem (d : dict) (k : string) : bool :=
  match dict_get d k with Some _ => true | None => false end.

(** [d[k] = v]: an existing key keeps its position, a new key is appended. *)
Fixpoint dict_set (d : dict) (k : string) (v : V) : dict :=
  match d with
  | [] => [(k, v)]
  | (k', v') :: r =>
      if String.eqb k' k then (k', v) :: r else (k', v') :: dict_set r k v
  end.

(** [d[k] = f(d[k])] for a key that is present. *)
Fixpoint dict_alter (f : V -> V) (d : dict) (k : string) : dict :=
  match d with
  | [] => []
  | (k', v') :: r =>
      if String.eqb k' k then (k', f v') :: r else (k', v') :: dict_alter f r k
  end.

End Dict.

(** [x in l] for a list of identifiers. *)
Definition mem (x : string) (l : list string) : bool :=
  existsb (String.eqb x) l.

(* ===================================================================== *)
(** * Users and transactions *)
(* ===================================================================== *)

Inductive SplitType := EQUAL | PERCENTAGE | EXACT.

Definition SplitType_eqb (a b : SplitType) : bool :=
  match a, b with
  | EQUAL, EQUAL | PERCENTAGE, PERCENTAGE | EXACT, EXACT => true
  | _, _ => false
  end.

Record User := {
  user_id : string;
  name : string;
  email : string
}.

(** The exceptions of the program, one constructor per [raise] site; the
    last two are the [TypeError] of [Decimal - float] and the [KeyError] of a
    subscript with a missing key. *)
Inductive error :=
| UserDoesNotExist (uid : string)
| PaymentNotPositive (uid : string)
| PercentageSum (total_percentage : Q)
| ExactSum (total_amount total_split : Q)
| UnsupportedOperand
| KeyError (key : string).

Inductive result (A : Type) :=
| Ok (a : A)
| Raise (e : error).

Arguments Ok {A} a.
Arguments Raise {A} e.

Definition bind {A B} (r : result A) (k : A -> result B) : result B :=
  match r with
  | Ok a => k a
  | Raise e => Raise e
  end.

Notation "x <- c1 ;; c2" := (bind c1 (fun x => c2))
  (at level 61, c1 at next level, right associativity).

(** A [for] loop whose body may raise. *)
Fixpoint for_each {A S} (l : list A) (body : A -> S -> result S) (s : S)
  : result S :=
  match l with
  | [] => Ok s
  | a :: r => s' <- body a s ;; for_each r body s'
  end.

Record Transaction := {
  transaction_id : string;
  description : string;
  date : string;
  payers : dict Q;
  participants : list string;
  split_type : SplitType;
  split_details : dict Q
}.

(** What [get_user_share] can return: a Decimal (or the int 0, which is the
    same number), or the float [0.0] that [0 / len(participants)] yields when
    [sum] of no payer amounts is the int 0. *)
Inductive number :=
| Dec (q : Q)
| Float0.

Definition eps : Q := 1 # 100.

Definition is_empty {A} (l : list A) : bool :=
  match l with [] => true | _ => false end.

Module Transaction.

(** [self.total_amount = sum(payers.values())] *)
Definition total_amount (t : Transaction) : Q :=
  Decimal.sum (dict_values (payers t)).

(** The loop over [self.payers.items()]: the first payer whose amount is not
    positive raises. *)
Fixpoint check_payers (p : dict Q) : result unit :=
  match p with
  | [] => Ok tt
  | (uid, amount) :: r =>
      if Decimal.leb amount 0 then Raise (PaymentNotPositive uid)
      else check_payers r
  end.

Definition _validate (t : Transaction) : result unit :=
  _ <- check_payers (payers t) ;;
  _ <- (if SplitType_eqb (split_type t) PERCENTAGE
           && negb (is_empty (split_details t)) then
          let total_percentage := Decimal.sum (dict_values (split_details t)) in
          if Decimal.ltb eps (Decimal.abs (Decimal.sub total_percentage 100))
          then Raise (PercentageSum total_percentage) else Ok tt
        else Ok tt) ;;
  if SplitType_eqb (split_type t) EXACT
     && negb (is_empty (split_details t)) then
    let total_split := Decimal.sum (dict_values (split_details t)) in
    if Decimal.ltb eps (Decimal.abs (Decimal.sub total_split (total_amount t)))
    then Raise (ExactSum (total_amount t) total_split) else Ok tt
  else Ok tt.

(** [Transaction(...)]: the constructor stores its arguments (a missing
    [split_details] is the empty dict) and validates. *)
Definition __init__ (tid descr dt : string) (pay : dict Q)
    (parts : list string) (st : SplitType) (details : dict Q)
  : result Transaction :=
  let t := {| transaction_id := tid; description := descr; date := dt;
              payers := pay; participants := parts; split_type := st;
              split_details := details |} in
  _ <- _validate t ;; Ok t.

Definition get_user_share (t : Transaction) (uid : string) : number :=
  if negb (mem uid (participants t)) then Dec 0
  else
    match split_type t with
    | EQUAL =>
        match payers t with
        | [] => Float0
        | _ => Dec (Decimal.div (total_amount t)
                      (inject_Z (Z.of_nat (List.length (participants t)))))
        end
    | PERCENTAGE =>
        match dict_get (split_details t) uid with
        | None => Dec 0
        | Some d => Dec (Decimal.mul (Decimal.div d 100) (total_amount t))
        end
    | EXACT =>
        match dict_get (split_details t) uid with
        | None => Dec 0
        | Some d => Dec d
        end
    end.

Definition get_user_payment (t : Transaction) (uid : string) : Q :=
  match dict_get (payers t) uid with
  | Some a => a
  | None => 0
  end.

(** [paid - owed]; a Decimal minus a float raises [TypeError]. *)
Definition get_user_balance (t : Transaction) (uid : string) : result Q :=
  match get_user_share t uid with
  | Dec owed => Ok (Decimal.sub (get_user_payment t uid) owed)
  | Float0 => Raise UnsupportedOperand
  end.

End Transaction.

(* ===================================================================== *)
(** * The expense manager *)
(* ===================================================================== *)

(** The pairwise matrix: [balances[debtor][creditor]]. *)
Definition matrix := dict (dict Q).

Definition settlement := (string * string * Q)%type.

Record ExpenseManager := {
  users : dict User;
  transactions : dict Transaction;
  user_transactions : dict (list string);
  _balance_cache : matrix;
  _cache_valid : bool
}.

(** [d[k]], which raises [KeyError] for a missing key. *)
Definition subscript {V} (d : dict V) (k : string) : result V :=
  match dict_get d k with
  | Some v => Ok v
  | None => Raise (KeyError k)
  end.

(** [s.add(x)] on a set kept as a duplicate-free list. *)
Definition set_add (x : string) (s : list string) : list string :=
  if mem x s then s else s ++ [x].

(** [set(l)]: the distinct elements of [l]. *)
Definition to_set (l : list string) : list string :=
  fold_left (fun s x => set_add x s) l [].

(** [l[i] = x] for an index within the list. *)
Definition list_set {A} (l : list A) (i : Z) (x : A) : list A :=
  firstn (Z.to_nat i) l ++ x :: skipn (S (Z.to_nat i)) l.

(** [balances.sort(key=lambda x: x[1])]: the stable ascending sort. *)
Fixpoint insert_by_balance (x : string * Q) (l : list (string * Q))
  : list (string * Q) :=
  match l with
  | [] => [x]
  | y :: r =>
      if Decimal.ltb (snd y) (snd x) then y :: insert_by_balance x r
      else x :: y :: r
  end.

Definition sort_by_balance (l : list (string * Q)) : list (string * Q) :=
  fold_right insert_by_balance [] l.

Module ExpenseManager.

Definition __init__ : ExpenseManager :=
  {| users := []; transactions := []; user_transactions := [];
     _balance_cache := []; _cache_valid := false |}.

Definition add_user (m : ExpenseManager) (uid nm mail : string)
  : ExpenseManager * User :=
  let user := {| user_id := uid; name := nm; email := mail |} in
  ({| users := dict_set (users m) uid user;
      transactions := transactions m;
      user_transactions := dict_set (user_transactions m) uid [];
      _balance_cache := _balance_cache m;
      _cache_valid := false |}, user).

Definition get_user (m : ExpenseManager) (uid : string) : option User :=
  dict_get (users m) uid.

(** The index update for one user of a new transaction. *)
Definition index_add (tid : string) (ut : dict (list string)) (uid : string)
  : dict (list string) :=
  match dict_get ut uid with
  | Some s => dict_set ut uid (set_add tid s)
  | None => dict_set ut uid [tid]
  end.

Definition add_transaction (m : ExpenseManager) (tid descr dt : string)
    (pay : dict Q) (parts : list string) (st : SplitType) (details : dict Q)
  : ExpenseManager * result Transaction :=
  match find (fun uid => negb (dict_mem (users m) uid))
             (dict_keys pay ++ parts) with
  | Some uid => (m, Raise (UserDoesNotExist uid))
  | None =>
      match Transaction.__init__ tid descr dt pay parts st details with
      | Raise e => (m, Raise e)
      | Ok transaction =>
          ({| users := users m;
              transactions := dict_set (transactions m) tid transaction;
              user_transactions :=
                fold_left (index_add tid) (to_set (dict_keys pay ++ parts))
                          (user_transactions m);
              _balance_cache := _balance_cache m;
              _cache_valid := false |}, Ok transaction)
      end
  end.

Definition get_transaction (m : ExpenseManager) (tid : string)
  : option Transaction :=
  dict_get (transactions m) tid.

Definition get_user_transactions (m : ExpenseManager) (uid : string)
  : list Transaction :=
  match dict_get (user_transactions m) uid with
  | None => []
  | Some tids =>
      flat_map (fun tid => match dict_get (transactions m) tid with
                           | Some t => [t]
                           | None => []
                           end) tids
  end.

(** The initial matrix: a zero for every ordered pair of distinct users. *)
Definition init_balances (us : list string) : matrix :=
  map (fun uid =>
         (uid, map (fun other => (other, 0))
                   (filter (fun other => negb (String.eqb other uid)) us)))
      us.

(** [balances[debtor][creditor] += share] *)
Definition add_share (balances : matrix) (debtor creditor : string) (share : Q)
  : matrix :=
  dict_alter (fun row => dict_alter (fun v => Decimal.add v share) row creditor)
             balances debtor.

(** [sum(max(balance(uid), 0) for uid in participants if uid != other_id)] *)
Definition total_positive (t : Transaction) (other_id : string) : result Q :=
  for_each (filter (fun uid => negb (String.eqb uid other_id)) (participants t))
    (fun uid acc =>
       b <- Transaction.get_user_balance t uid ;;
       Ok (Decimal.add acc (Decimal.max b 0)))
    0.

(** Body of the innermost loop over [other_id]. *)
Definition other_step (t : Transaction) (uid : string) (user_balance : Q)
    (other_id : string) (balances : matrix) : result matrix :=
  if negb (String.eqb other_id uid) then
    other_balance <- Transaction.get_user_balance t other_id ;;
    if Decimal.ltb other_balance 0 && Decimal.ltb 0 user_balance then
      tp <- total_positive t other_id ;;
      if Decimal.ltb 0 tp then
        let share :=
          Decimal.mul (Decimal.div user_balance tp) (Decimal.abs other_balance) in
        Ok (add_share balances other_id uid share)
      else Ok balances
    else Ok balances
  else Ok balances.

(** Body of the loop over [user_id]. *)
Definition user_step (us : list string) (t : Transaction) (uid : string)
    (balances : matrix) : result matrix :=
  user_balance <- Transaction.get_user_balance t uid ;;
  if negb (Decimal.eqb user_balance 0) then
    for_each us (other_step t uid user_balance) balances
  else Ok balances.

Definition _calculate_balances (m : ExpenseManager) : result matrix :=
  let us := dict_keys (users m) in
  for_each (dict_values (transactions m))
    (fun t balances => for_each us (user_step us t) balances)
    (init_balances us).

(** A call that raises leaves the manager as it was. *)
Definition get_balances (m : ExpenseManager) : ExpenseManager * result matrix :=
  if negb (_cache_valid m) then
    match _calculate_balances m with
    | Ok b =>
        ({| users := users m; transactions := transactions m;
            user_transactions := user_transactions m;
            _balance_cache := b; _cache_valid := true |}, Ok b)
    | Raise e => (m, Raise e)
    end
  else (m, Ok (_balance_cache m)).

(** The comprehension [{o_id: balances[o_id].get(user_id, 0) for o_id in
    self.users if o_id != user_id}]. *)
Definition owed_by_others (balances : matrix) (us : list string) (uid : string)
  : result (dict Q) :=
  for_each (filter (fun o_id => negb (String.eqb o_id uid)) us)
    (fun o_id acc =>
       row <- subscript balances o_id ;;
       Ok (dict_set acc o_id
             (match dict_get row uid with Some a => a | None => 0 end)))
    [].

Definition positive_items (d : dict Q) : dict Q :=
  filter (fun item => Decimal.ltb 0 (snd item)) d.

Definition get_or_zero (d : dict Q) (k : string) : Q :=
  match dict_get d k with Some a => a | None => 0 end.

(** Body of the loop that fills [net]. *)
Definition net_step (uid : string) (owed owes : dict Q) (net : dict Q)
    (other_id : string) : dict Q :=
  if negb (String.eqb other_id uid) then
    let owed_amount := get_or_zero owed other_id in
    let owes_amount := get_or_zero owes other_id in
    if Decimal.ltb owes_amount owed_amount then
      dict_set net other_id (Decimal.sub owed_amount owes_amount)
    else if Decimal.ltb owed_amount owes_amount then
      dict_set net other_id (Decimal.neg (Decimal.sub owes_amount owed_amount))
    else net
  else net.

Definition get_user_balance (m : ExpenseManager) (uid : string)
  : ExpenseManager * result (dict Q) :=
  if negb (dict_mem (users m) uid) then (m, Raise (UserDoesNotExist uid))
  else
    let (m', r) := get_balances m in
    (m',
     balances <- r ;;
     row <- subscript balances uid ;;
     let owes := positive_items row in
     owed_all <- owed_by_others balances (dict_keys (users m)) uid ;;
     let owed := positive_items owed_all in
     Ok (fold_left (net_step uid owed owes) (dict_keys (users m)) [])).

(** [sum(t.get_user_balance(uid) for t in transactions.values()
         if uid in t.participants or uid in t.payers)] *)
Definition net_balance (m : ExpenseManager) (uid : string) : result Q :=
  for_each
    (filter (fun t => mem uid (participants t) || dict_mem (payers t) uid)
            (dict_values (transactions m)))
    (fun t acc => b <- Transaction.get_user_balance t uid ;;
                  Ok (Decimal.add acc b))
    0.

(** The list of [(user_id, net_balance)] in the order of [self.users]. *)
Fixpoint net_balances (m : ExpenseManager) (us : list string)
  : result (list (string * Q)) :=
  match us with
  | [] => Ok []
  | uid :: r =>
      b <- net_balance m uid ;;
      rest <- net_balances m r ;;
      Ok ((uid, b) :: rest)
  end.

Definition item (balances : list (string * Q)) (i : Z) : string * Q :=
  nth (Z.to_nat i) balances (EmptyString, 0).

(** The [while i < j] loop; [None] when the fuel runs out. *)
Fixpoint settle (fuel : nat) (balances : list (string * Q)) (i j : Z)
    (settlements : list settlement) : option (list settlement) :=
  match fuel with
  | O => None
  | S fuel' =>
      if (i <? j)%Z then
        let (debtor, debt) := item balances i in
        let (creditor, credit) := item balances j in
        if Decimal.ltb (Decimal.abs debt) eps
           && Decimal.ltb (Decimal.abs credit) eps then
          settle fuel' balances (i + 1)%Z (j - 1)%Z settlements
        else if Decimal.leb 0 debt || Decimal.leb credit 0 then
          Some settlements
        else
          let amount := Decimal.min (Decimal.abs debt) credit in
          let settlements' :=
            if Decimal.ltb eps amount
            then settlements ++ [(debtor, creditor, amount)]
            else settlements in
          let balances1 := list_set balances i (debtor, Decimal.add debt amount) in
          let balances2 :=
            list_set balances1 j (creditor, Decimal.sub credit amount) in
          let i' := if Decimal.ltb (Decimal.abs (snd (item balances2 i))) eps
                    then (i + 1)%Z else i in
          let j' := if Decimal.ltb (Decimal.abs (snd (item balances2 j))) eps
                    then (j - 1)%Z else j in
          settle fuel' balances2 i' j' settlements'
      else Some settlements
  end.

(** Every pass of the loop moves a pointer, so the length of the list (plus
    one for the final test) bounds the number of passes. *)
Definition get_simplified_settlements (m : ExpenseManager)
  : option (result (list settlement)) :=
  match net_balances m (dict_keys (users m)) with
  | Raise e => Some (Raise e)
  | Ok balances =>
      let sorted := sort_by_balance balances in
      option_map Ok
        (settle (S (List.length sorted)) sorted 0
                (Z.of_nat (List.length sorted) - 1) [])
  end.

End ExpenseManager.

(* ===================================================================== *)
(** * Scenario ledgers *)
(* ===================================================================== *)

(** Three registrations followed by one transaction. *)
Definition ledger_of (u1 u2 u3 : string) (pay : dict Q) (parts : list string)
    (st : SplitType) (details : dict Q) : ExpenseManager * result Transaction :=
  let m1 := fst (ExpenseManager.add_user ExpenseManager.__init__ u1 u1 "") in
  let m2 := fst (ExpenseManager.add_user m1 u2 u2 "") in
  let m3 := fst (ExpenseManager.add_user m2 u3 u3 "") in
  ExpenseManager.add_transaction m3 "t1" "expense" "2024-01-01" pay parts st
    details.

(** A pays 90 for a dinner shared equally by A, B and C. *)
Definition dinner (u1 u2 u3 : string) : ExpenseManager * result Transaction :=
  ledger_of u1 u2 u3 [("A", 90%Q)] ["A"; "B"; "C"] EQUAL [].

Definition dinner_transaction : Transaction :=
  {| transaction_id := "t1"; description := "expense"; date := "2024-01-01";
     payers := [("A", 90%Q)]; participants := ["A"; "B"; "C"];
     split_type := EQUAL; split_details := [] |}.

(* ===================================================================== *)
(** * Vocabulary of the specification *)
(* ===================================================================== *)

(** The specification's "referential" error: an unknown user id. *)
Definition is_referential_error (e : error) : bool :=
  match e with UserDoesNotExist _ => true | _ => false end.

(** The specification's "validation" error: a transaction invariant fails. *)
Definition is_validation_error (e : error) : bool :=
  match e with
  | PaymentNotPositive _ | PercentageSum _ | ExactSum _ _ => true
  | _ => false
  end.

(** The checks of [_validate], as the code computes them: a payer amount that
    is not positive, or non-empty PERCENTAGE / EXACT details whose sum is more
    than [eps] away from 100 / the total, where the sum is the builtin [sum]
    of Decimals (every addition rounded to the context), and the difference
    and its absolute value are rounded too.  This is the guard of the code,
    not the exact deviation of the specification, which is
    [spec_invariant_violated] below. *)
Definition invariant_violated (t : Transaction) : Prop :=
  (exists uid amount, In (uid, amount) (payers t) /\ (amount <= 0)%Q) \/
  (split_type t = PERCENTAGE /\ split_details t <> [] /\
   (eps < Decimal.abs (Decimal.sub (Decimal.sum (dict_values (split_details t)))
                                   100))%Q) \/
  (split_type t = EXACT /\ split_details t <> [] /\
   (eps < Decimal.abs (Decimal.sub (Decimal.sum (dict_values (split_details t)))
                                   (Transaction.total_amount t)))%Q).

(** The transaction invariants in the words of the specification: a payer
    amount that is not positive, or non-empty PERCENTAGE / EXACT details
    whose sum, in exact arithmetic, is more than [eps] away from 100 / the
    total amount. *)
Definition spec_invariant_violated (t : Transaction) : Prop :=
  (exists uid amount, In (uid, amount) (payers t) /\ (amount <= 0)%Q) \/
  (split_type t = PERCENTAGE /\ split_details t <> [] /\
   (eps < Qabs (Decimal.exact_sum (dict_values (split_details t)) - 100))%Q) \/
  (split_type t = EXACT /\ split_details t <> [] /\
   (eps < Qabs (Decimal.exact_sum (dict_values (split_details t))
                - Transaction.total_amount t))%Q).

(** The sum of the details [vals] and its difference with [target] need no
    rounding: the builtin [sum] returns the exact sum, and the difference
    has at most 28 significant digits. *)
Definition deviation_exact (vals : list Q) (target : Q) : Prop :=
  (Decimal.sum vals == Decimal.exact_sum vals)%Q /\
  Decimal.representable (Decimal.exact_sum vals - target)%Q.

(** No rounding occurs in the test [_validate] makes for the split type of
    the transaction. *)
Definition sums_exact (t : Transaction) : Prop :=
  match split_type t with
  | EQUAL => True
  | PERCENTAGE => deviation_exact (dict_values (split_details t)) 100
  | EXACT =>
      deviation_exact (dict_values (split_details t))
                      (Transaction.total_amount t)
  end.

(** The record a call of the constructor builds. *)
Definition make_transaction (tid descr dt : string) (pay : dict Q)
    (parts : list string) (st : SplitType) (details : dict Q) : Transaction :=
  {| transaction_id := tid; description := descr; date := dt;
     payers := pay; participants := parts; split_type := st;
     split_details := details |}.

(* ===================================================================== *)
(** * The remaining operations of [User] and [ExpenseManager] *)
(* ===================================================================== *)

Module User.

(** [to_dict]: the three fields under their names, in this order. *)
Definition to_dict (u : User) : dict string :=
  [("user_id", user_id u); ("name", name u); ("email", email u)].

(** [from_dict]: the keyword arguments are evaluated from left to right, so
    the first missing key is the one the [KeyError] names. *)
Definition from_dict (data : dict string) : result User :=
  uid <- subscript data "user_id" ;;
  nm <- subscript data "name" ;;
  mail <- subscript data "email" ;;
  Ok {| user_id := uid; name := nm; email := mail |}.

End User.

(** [ExpenseManager.get_all_users]: [list(self.users.values())]. *)
Definition get_all_users (m : ExpenseManager) : list User :=
  dict_values (users m).

(** [uid in t.participants or uid in t.payers] *)
Definition involves (uid : string) (t : Transaction) : bool :=
  mem uid (participants t) || dict_mem (payers t) uid.

(** The ledgers that calls of the public operations build from an empty
    manager.  The identifiers come from [uuid.uuid4()], which returns a new
    one at every call: a registration uses an id that is not a user yet, an
    addition an id that is not a transaction yet. *)
Inductive reachable : ExpenseManager -> Prop :=
| reach_init : reachable ExpenseManager.__init__
| reach_add_user m uid nm mail :
    reachable m -> ~ In uid (dict_keys (users m)) ->
    reachable (fst (ExpenseManager.add_user m uid nm mail))
| reach_add_transaction m tid descr dt pay parts st details :
    reachable m -> ~ In tid (dict_keys (transactions m)) ->
    NoDup (dict_keys pay) ->
    reachable (fst (ExpenseManager.add_transaction m tid descr dt pay parts st
                      details))
| reach_get_balances m :
    reachable m -> reachable (fst (ExpenseManager.get_balances m))
| reach_get_user_balance m uid :
    reachable m -> reachable (fst (ExpenseManager.get_user_balance m uid)).

(** What every reachable ledger satisfies: distinct ids, stored transactions
    that are valid, filed under their own id and name known users only, and
    an index with one entry per user that lists exactly the stored
    transactions involving that user. *)
Record ledger_invariant (m : ExpenseManager) : Prop := {
  inv_users : NoDup (dict_keys (users m));
  inv_transactions : NoDup (dict_keys (transactions m));
  inv_stored : forall tid t,
    dict_get (transactions m) tid = Some t ->
    transaction_id t = tid /\ Transaction._validate t = Ok tt /\
    forall uid, involves uid t = true -> In uid (dict_keys (users m));
  inv_index_sound : forall uid s,
    dict_get (user_transactions m) uid = Some s ->
    In uid (dict_keys (users m)) /\ NoDup s /\
    forall x, In x s ->
      exists t, dict_get (transactions m) x = Some t /\ involves uid t = true;
  inv_index_complete : forall tid t uid,
    dict_get (transactions m) tid = Some t -> involves uid t = true ->
    exists s, dict_get (user_transactions m) uid = Some s /\ In tid s;
  inv_index_users : forall uid,
    In uid (dict_keys (users m)) -> dict_get (user_transactions m) uid <> None
}.

(** A result that is a value or the error [e0]. *)
Definition raises_at_most {A} (e0 : error) (r : result A) : Prop :=
  match r with
  | Ok _ => True
  | Raise e => e = e0
  end.


(* ===================================================================== *)
(** * Facts about the context rounding *)
(* ===================================================================== *)

Module DecimalFacts.
Import Decimal.
Local Open Scope Z_scope.

Lemma digits_aux_spec (fuel : nat) : forall z,
  1 <= z < 10 ^ (Z.of_nat fuel + 1) ->
  1 <= digits_aux fuel z /\
  10 ^ (digits_aux fuel z - 1) <= z < 10 ^ digits_aux fuel z.
Proof.
  induction fuel as [|f IH]; intros z Hz.
  - simpl in *. lia.
  - cbn [digits_aux]. destruct (z <? 10) eqn:E.
    + apply Z.ltb_lt in E. simpl. lia.
    + apply Z.ltb_ge in E.
      assert (Hq : 1 <= z / 10 < 10 ^ (Z.of_nat f + 1)).
      { split.
        - apply Z.div_le_lower_bound; lia.
        - apply Z.div_lt_upper_bound; [lia|].
          rewrite <- Z.pow_succ_r by lia.
          replace (Z.succ (Z.of_nat f + 1)) with (Z.of_nat (S f) + 1) by lia.
          apply Hz. }
      destruct (IH _ Hq) as [H1 [H2 H3]].
      split; [lia|].
      replace (1 + digits_aux f (z / 10) - 1) with (Z.succ (digits_aux f (z / 10) - 1)) by lia.
      replace (1 + digits_aux f (z / 10)) with (Z.succ (digits_aux f (z / 10))) by lia.
      rewrite !Z.pow_succ_r by lia.
      pose proof (Z.div_mod z 10 ltac:(lia)) as Hdm.
      pose proof (Z.mod_pos_bound z 10 ltac:(lia)) as Hm.
      lia.
Qed.

Lemma digits_spec z : 1 <= z ->
  1 <= digits z /\ 10 ^ (digits z - 1) <= z < 10 ^ digits z.
Proof.
  intros Hz. unfold digits. apply digits_aux_spec. split; [lia|].
  rewrite Z2Nat.id by apply Z.log2_nonneg.
  destruct (Z.log2_spec z ltac:(lia)) as [_ H].
  eapply Z.lt_le_trans; [exact H|].
  replace (Z.succ (Z.log2 z)) with (Z.log2 z + 1) by lia.
  apply Z.pow_le_mono_l. lia.
Qed.

Local Open Scope Q_scope.

Lemma ten_nonzero : ~ 10 == 0.
Proof. discriminate. Qed.

Lemma pow10_add a b : pow10 (a + b) == pow10 a * pow10 b.
Proof. unfold pow10. apply Qpower_plus. exact ten_nonzero. Qed.

Lemma pow10_inject e : (0 <= e)%Z -> pow10 e == inject_Z (10 ^ e).
Proof.
  intros He. unfold pow10. symmetry.
  change 10 with (inject_Z 10). apply Zpower_Qpower. exact He.
Qed.

Lemma pow10_pos e : 0 < pow10 e.
Proof. unfold pow10. apply Qpower_0_lt. reflexivity. Qed.

Lemma pow10_0 : pow10 0 == 1.
Proof. reflexivity. Qed.

Lemma pow10_1 : pow10 1 == 10.
Proof. reflexivity. Qed.

Lemma pow10_sub a b : pow10 (a - b) == pow10 a / pow10 b.
Proof.
  assert (H : pow10 a == pow10 (a - b) * pow10 b).
  { rewrite <- pow10_add. replace (a - b + b)%Z with a by lia. reflexivity. }
  rewrite H. field. pose proof (pow10_pos b). lra.
Qed.

Lemma pow10_ge_10 e : (1 <= e)%Z -> 10 <= pow10 e.
Proof.
  intros He. rewrite pow10_inject by lia.
  change 10 with (inject_Z 10). rewrite <- Zle_Qle.
  change 10%Z with (10 ^ 1)%Z at 1. apply Z.pow_le_mono_r; lia.
Qed.

Lemma pow10_lt_mono a b : (a < b)%Z -> pow10 a < pow10 b.
Proof.
  intros Hab. replace b with (a + (b - a))%Z by lia. rewrite pow10_add.
  pose proof (pow10_pos a). assert (H0 : 10 <= pow10 (b - a)) by (apply pow10_ge_10; lia).
  nra.
Qed.

Lemma pow10_le_mono a b : (a <= b)%Z -> pow10 a <= pow10 b.
Proof.
  intros Hab. destruct (Z.eq_dec a b) as [->|Hne]; [apply Qle_refl|].
  apply Qlt_le_weak, pow10_lt_mono. lia.
Qed.

Lemma digits_bounds_Q z : (1 <= z)%Z ->
  pow10 (digits z - 1) <= inject_Z z /\ inject_Z z < pow10 (digits z).
Proof.
  intros Hz. destruct (digits_spec Hz) as [H1 [H2 H3]].
  rewrite !pow10_inject by lia. rewrite <- Zle_Qle, <- Zlt_Qlt. auto.
Qed.

Lemma Q_as_quotient x : x == inject_Z (Qnum x) / inject_Z (Zpos (Qden x)).
Proof.
  destruct x as [n d]. unfold Qeq, Qdiv, Qmult, Qinv, inject_Z. simpl.
  lia.
Qed.

Lemma exponent_of_spec x : 0 < x ->
  pow10 (prec - 1) <= x / pow10 (exponent_of x) /\
  x / pow10 (exponent_of x) < pow10 prec.
Proof.
  intros Hx.
  assert (Hn : (1 <= Qnum x)%Z).
  { destruct x as [n d]. unfold Qlt in Hx. simpl in *. lia. }
  assert (Hd : (1 <= Zpos (Qden x))%Z) by lia.
  destruct (digits_bounds_Q Hn) as [N1 N2].
  destruct (digits_bounds_Q Hd) as [D1 D2].
  set (a := digits (Qnum x)) in *. set (b := digits (Zpos (Qden x))) in *.
  pose proof (Q_as_quotient x) as Hq.
  set (n := inject_Z (Qnum x)) in *. set (d := inject_Z (Zpos (Qden x))) in *.
  assert (Hdpos : 0 < d) by (pose proof (pow10_pos (b - 1)); lra).
  set (e0 := (a - b - (prec - 1))%Z).
  pose proof (pow10_pos e0) as He0.
  assert (U : x / pow10 e0 < pow10 prec).
  { apply Qlt_shift_div_r; [exact He0|].
    rewrite <- pow10_add. rewrite Hq. apply Qlt_shift_div_r; [exact Hdpos|].
    replace (prec + e0)%Z with ((a - b + 1))%Z by (unfold e0; lia).
    assert (E : pow10 a == pow10 (a - b + 1) * pow10 (b - 1)).
    { rewrite <- pow10_add. replace (a - b + 1 + (b - 1))%Z with a by lia. reflexivity. }
    pose proof (pow10_pos (a - b + 1)). nra. }
  assert (L : pow10 (prec - 2) < x / pow10 e0).
  { apply Qlt_shift_div_l; [exact He0|].
    rewrite <- pow10_add. rewrite Hq. apply Qlt_shift_div_l; [exact Hdpos|].
    replace (prec - 2 + e0)%Z with ((a - 1 - b))%Z by (unfold e0, prec; lia).
    assert (E : pow10 (a - 1) == pow10 (a - 1 - b) * pow10 b).
    { rewrite <- pow10_add. replace (a - 1 - b + b)%Z with (a - 1)%Z by lia. reflexivity. }
    pose proof (pow10_pos (a - 1 - b)). nra. }
  unfold exponent_of. fold a b. cbv zeta. fold e0.
  destruct (Qle_bool (pow10 (prec - 1)) (x / pow10 e0)) eqn:T.
  - apply Qle_bool_iff in T. split; assumption.
  - assert (T' : x / pow10 e0 < pow10 (prec - 1)).
    { apply Qnot_le_lt. intro C. apply Qle_bool_iff in C. congruence. }
    assert (E : x / pow10 (e0 - 1) == 10 * (x / pow10 e0)).
    { rewrite (pow10_sub e0 1). rewrite pow10_1. field.
      pose proof (pow10_pos e0). lra. }
    rewrite E.
    assert (P1 : pow10 (prec - 1) == 10 * pow10 (prec - 2)).
    { replace (prec - 1)%Z with (1 + (prec - 2))%Z by lia. rewrite pow10_add, pow10_1. reflexivity. }
    assert (P2 : pow10 prec == 10 * pow10 (prec - 1)).
    { replace prec with (1 + (prec - 1))%Z at 1 by lia. rewrite pow10_add, pow10_1. reflexivity. }
    rewrite P2, P1 at 1. lra.
Qed.


Lemma half_even_inject q c : q == inject_Z c -> half_even q = c.
Proof.
  destruct q as [n d]. unfold Qeq, inject_Z, half_even. cbn [Qnum Qden]. intros H.
  rewrite Z.mul_1_r in H. subst n.
  rewrite Z.div_mul by lia. rewrite Z.mod_mul by lia. reflexivity.
Qed.

Lemma half_even_floor q :
  (Qfloor q <= half_even q <= Qfloor q + 1)%Z.
Proof.
  destruct q as [n d]. unfold half_even, Qfloor. cbn [Qnum Qden].
  destruct (2 * (n mod Z.pos d) ?= Z.pos d)%Z; [destruct (Z.even _)| |]; lia.
Qed.

Lemma half_even_bounds q a b :
  inject_Z a <= q -> q < inject_Z b -> (a <= half_even q <= b)%Z.
Proof.
  intros Ha Hb. pose proof (half_even_floor q) as [F1 F2].
  assert (a <= Qfloor q)%Z.
  { rewrite <- (Qfloor_Z a). apply Qfloor_resp_le. exact Ha. }
  assert (Qfloor q < b)%Z.
  { rewrite Zlt_Qlt. eapply Qle_lt_trans; [apply Qfloor_le|exact Hb]. }
  lia.
Qed.

(** The outcome of rounding a positive number. *)
Lemma round_pos_spec x : 0 < x ->
  exists c, (10 ^ (prec - 1) <= c <= 10 ^ prec)%Z /\
            round_pos x == inject_Z c * pow10 (exponent_of x).
Proof.
  intros Hx. destruct (exponent_of_spec Hx) as [L U].
  exists (half_even (x / pow10 (exponent_of x))). split.
  - apply half_even_bounds.
    + rewrite <- pow10_inject by (unfold prec; lia). exact L.
    + rewrite <- pow10_inject by (unfold prec; lia). exact U.
  - unfold round_pos. apply Qred_correct.
Qed.

Lemma round_pos_pos x : 0 < x -> 0 < round_pos x.
Proof.
  intros Hx. destruct (round_pos_spec Hx) as [c [[Hc _] E]]. rewrite E.
  apply Qmult_lt_0_compat; [|apply pow10_pos].
  change 0 with (inject_Z 0). rewrite <- Zlt_Qlt.
  assert (0 < 10 ^ (prec - 1))%Z by (apply Z.pow_pos_nonneg; unfold prec; lia).
  lia.
Qed.

Lemma exponent_unique x e1 e2 : 0 < x ->
  pow10 (prec - 1) <= x / pow10 e1 < pow10 prec ->
  pow10 (prec - 1) <= x / pow10 e2 < pow10 prec ->
  e1 = e2.
Proof.
  assert (K : forall a b, 0 < x -> (a < b)%Z ->
            pow10 (prec - 1) <= x / pow10 b -> x / pow10 a < pow10 prec -> False).
  { intros a b Hx Hab Hb Ha.
    assert (E : x / pow10 a == pow10 (b - a) * (x / pow10 b)).
    { rewrite (pow10_sub b a). field.
      pose proof (pow10_pos a). pose proof (pow10_pos b). lra. }
    assert (G : 10 <= pow10 (b - a)) by (apply pow10_ge_10; lia).
    assert (P2 : pow10 prec == 10 * pow10 (prec - 1)).
    { replace prec with (1 + (prec - 1))%Z at 1 by lia.
      rewrite pow10_add, pow10_1. reflexivity. }
    pose proof (pow10_pos (prec - 1)).
    rewrite E, P2 in Ha. nra. }
  intros Hx [L1 U1] [L2 U2].
  destruct (Z.lt_trichotomy e1 e2) as [H|[H|H]]; [|exact H|].
  - exfalso. exact (K e1 e2 Hx H L2 U1).
  - exfalso. exact (K e2 e1 Hx H L1 U2).
Qed.

Lemma round_pos_exact x c e :
  (10 ^ (prec - 1) <= c < 10 ^ prec)%Z -> x == inject_Z c * pow10 e ->
  round_pos x == x.
Proof.
  intros [Hc1 Hc2] Hx.
  assert (Hcpos : (0 < c)%Z).
  { assert (0 < 10 ^ (prec - 1))%Z by (apply Z.pow_pos_nonneg; unfold prec; lia). lia. }
  assert (Hxpos : 0 < x).
  { rewrite Hx. apply Qmult_lt_0_compat; [|apply pow10_pos].
    change 0 with (inject_Z 0). rewrite <- Zlt_Qlt. exact Hcpos. }
  assert (Hdiv : x / pow10 e == inject_Z c).
  { rewrite Hx. field. pose proof (pow10_pos e). lra. }
  assert (He : exponent_of x = e).
  { apply (@exponent_unique x); [exact Hxpos|apply exponent_of_spec; exact Hxpos|].
    rewrite Hdiv, !pow10_inject by (unfold prec; lia).
    rewrite <- Zle_Qle, <- Zlt_Qlt. lia. }
  unfold round_pos. rewrite He. rewrite Qred_correct.
  rewrite (half_even_inject Hdiv). symmetry. exact Hx.
Qed.


Lemma ctx_round_wd x y : x == y -> ctx_round x = ctx_round y.
Proof. intros H. unfold ctx_round. rewrite (Qred_complete _ _ H). reflexivity. Qed.

Lemma ctx_round_0 : ctx_round 0 = 0.
Proof. reflexivity. Qed.

Lemma ctx_round_of_pos x : 0 < x -> ctx_round x = round_pos (Qred x).
Proof.
  intros Hx. unfold ctx_round.
  assert (H : 0 < Qred x) by (rewrite Qred_correct; exact Hx).
  destruct (Qred x) as [n d]. unfold Qlt in H. simpl in H.
  destruct n; simpl; try lia. reflexivity.
Qed.

Lemma ctx_round_of_neg x : x < 0 -> ctx_round x = - round_pos (- Qred x).
Proof.
  intros Hx. unfold ctx_round.
  assert (H : Qred x < 0) by (rewrite Qred_correct; exact Hx).
  destruct (Qred x) as [n d]. unfold Qlt in H. simpl in H.
  destruct n; simpl; try lia. reflexivity.
Qed.

Lemma ctx_round_pos x : 0 < x -> 0 < ctx_round x.
Proof.
  intros Hx. rewrite (ctx_round_of_pos Hx). apply round_pos_pos.
  rewrite Qred_correct. exact Hx.
Qed.

Lemma ctx_round_neg x : x < 0 -> ctx_round x < 0.
Proof.
  intros Hx. rewrite (ctx_round_of_neg Hx).
  assert (0 < round_pos (- Qred x)).
  { apply round_pos_pos. rewrite Qred_correct. lra. }
  lra.
Qed.

Lemma ctx_round_nonneg x : 0 <= x -> 0 <= ctx_round x.
Proof.
  intros Hx. destruct (Qlt_le_dec 0 x) as [H|H].
  - apply Qlt_le_weak, ctx_round_pos, H.
  - rewrite (@ctx_round_wd x 0) by lra. apply Qle_refl.
Qed.

Lemma ctx_round_eq_0 x : ctx_round x == 0 <-> x == 0.
Proof.
  split; intros H.
  - destruct (Q_dec x 0) as [[Hlt|Hgt]|Heq]; [| |exact Heq].
    + pose proof (ctx_round_neg Hlt). lra.
    + pose proof (ctx_round_pos Hgt). lra.
  - rewrite (ctx_round_wd H). reflexivity.
Qed.

Lemma ctx_round_opp x : ctx_round (- x) == - ctx_round x.
Proof.
  destruct (Q_dec x 0) as [[Hlt|Hgt]|Heq].
  - rewrite (ctx_round_of_neg Hlt).
    assert (H : 0 < - x) by lra. rewrite (ctx_round_of_pos H).
    rewrite Qred_opp. lra.
  - rewrite (ctx_round_of_pos Hgt).
    assert (H : - x < 0) by lra. rewrite (ctx_round_of_neg H).
    rewrite Qred_opp.
    assert (E : - - Qred x = Qred x).
    { destruct (Qred x) as [n d]. unfold Qopp. simpl. rewrite Z.opp_involutive. reflexivity. }
    rewrite E. reflexivity.
  - rewrite (@ctx_round_wd (- x) 0) by lra. rewrite (@ctx_round_wd x 0) by lra.
    reflexivity.
Qed.

Lemma normalize_coef c : (0 < c < 10 ^ prec)%Z ->
  exists k, (0 <= k)%Z /\ (10 ^ (prec - 1) <= c * 10 ^ k < 10 ^ prec)%Z.
Proof.
  intros [H0 H1]. destruct (@digits_spec c ltac:(lia)) as [D1 [D2 D3]].
  assert (Hd : (digits c <= prec)%Z).
  { destruct (Z_le_gt_dec (digits c) prec) as [H|H]; [exact H|exfalso].
    assert (10 ^ prec <= 10 ^ (digits c - 1))%Z by (apply Z.pow_le_mono_r; lia).
    lia. }
  exists (prec - digits c)%Z. split; [lia|].
  assert (E1 : (10 ^ (prec - 1) = 10 ^ (digits c - 1) * 10 ^ (prec - digits c))%Z).
  { rewrite <- Z.pow_add_r by lia. f_equal. lia. }
  assert (E2 : (10 ^ prec = 10 ^ digits c * 10 ^ (prec - digits c))%Z).
  { rewrite <- Z.pow_add_r by lia. f_equal. lia. }
  assert (0 < 10 ^ (prec - digits c))%Z by (apply Z.pow_pos_nonneg; lia).
  rewrite E1, E2. nia.
Qed.

Lemma round_pos_exact' x c e :
  (0 < c < 10 ^ prec)%Z -> x == inject_Z c * pow10 e -> round_pos x == x.
Proof.
  intros Hc Hx. destruct (normalize_coef Hc) as [k [Hk Hb]].
  apply (@round_pos_exact x (c * 10 ^ k) (e - k)); [exact Hb|].
  rewrite Hx, inject_Z_mult, <- pow10_inject by exact Hk.
  rewrite (pow10_sub e k). field. pose proof (pow10_pos k). lra.
Qed.

Lemma ctx_round_exact x : representable x -> ctx_round x == x.
Proof.
  intros [c [e [Hc Hx]]].
  pose proof (pow10_pos e) as Hp.
  destruct (Z.lt_trichotomy c 0) as [Hneg|[Hz|Hpos]].
  - assert (Hlt : x < 0).
    { rewrite Hx. assert (inject_Z c < 0).
      { change 0 with (inject_Z 0). rewrite <- Zlt_Qlt. exact Hneg. }
      nra. }
    rewrite (ctx_round_of_neg Hlt).
    rewrite (@round_pos_exact' (- Qred x) (- c) e).
    + rewrite Qred_correct. lra.
    + lia.
    + rewrite Qred_correct, Hx, inject_Z_opp. lra.
  - subst c. rewrite (@ctx_round_wd x 0); [|rewrite Hx; unfold inject_Z; lra].
    rewrite ctx_round_0, Hx. change (inject_Z 0) with 0. lra.
  - assert (Hgt : 0 < x).
    { rewrite Hx. assert (0 < inject_Z c).
      { change 0 with (inject_Z 0). rewrite <- Zlt_Qlt. exact Hpos. }
      nra. }
    rewrite (ctx_round_of_pos Hgt).
    rewrite (@round_pos_exact' (Qred x) c e).
    + apply Qred_correct.
    + lia.
    + rewrite Qred_correct. exact Hx.
Qed.

Lemma round_pos_representable x : 0 < x -> representable (round_pos x).
Proof.
  intros Hx. destruct (round_pos_spec Hx) as [c [[H1 H2] E]].
  destruct (Z.eq_dec c (10 ^ prec)) as [->|Hne].
  - exists (10 ^ (prec - 1))%Z, (exponent_of x + 1)%Z. split.
    + vm_compute. reflexivity.
    + assert (T : inject_Z (10 ^ prec) == 10 * inject_Z (10 ^ (prec - 1)))
        by (vm_compute; reflexivity).
      rewrite E, pow10_add, pow10_1, T. ring.
  - exists c, (exponent_of x). split; [|exact E].
    assert (0 < 10 ^ (prec - 1))%Z by (apply Z.pow_pos_nonneg; unfold prec; lia).
    lia.
Qed.

Lemma representable_opp x : representable x -> representable (- x).
Proof.
  intros [c [e [Hc Hx]]]. exists (- c)%Z, e. split; [lia|].
  rewrite Hx, inject_Z_opp. lra.
Qed.

Lemma representable_wd x y : x == y -> representable x -> representable y.
Proof. intros E [c [e [Hc Hx]]]. exists c, e. split; [exact Hc|]. rewrite <- E. exact Hx. Qed.

Lemma representable_0 : representable 0.
Proof. exists 0%Z, 0%Z. split; [reflexivity|]. reflexivity. Qed.

Lemma ctx_round_representable x : representable (ctx_round x).
Proof.
  destruct (Q_dec x 0) as [[Hlt|Hgt]|Heq].
  - rewrite (ctx_round_of_neg Hlt). apply representable_opp, round_pos_representable.
    rewrite Qred_correct. lra.
  - rewrite (ctx_round_of_pos Hgt). apply round_pos_representable.
    rewrite Qred_correct. exact Hgt.
  - rewrite (ctx_round_wd Heq). apply representable_0.
Qed.

Lemma ctx_round_idem x : ctx_round (ctx_round x) == ctx_round x.
Proof. apply ctx_round_exact, ctx_round_representable. Qed.

Lemma representable_abs x : representable x -> representable (Qabs x).
Proof.
  intros H. destruct (Qlt_le_dec x 0) as [Hx|Hx].
  - apply (@representable_wd (- x)); [|apply representable_opp, H].
    symmetry. apply Qabs_neg. lra.
  - apply (@representable_wd x); [|exact H].
    symmetry. apply Qabs_pos. exact Hx.
Qed.
End DecimalFacts.

(* ===================================================================== *)
(** * Basic facts: comparisons, dictionaries, loops *)
(* ===================================================================== *)

Local Open Scope Q_scope.

Lemma ltb_lt x y : Decimal.ltb x y = true <-> x < y.
Proof.
  unfold Decimal.ltb. rewrite negb_true_iff. split; intros H.
  - apply Qnot_le_lt. intro C. apply Qle_bool_iff in C. congruence.
  - destruct (Qle_bool y x) eqn:E; [|reflexivity].
    apply Qle_bool_iff in E. lra.
Qed.

Lemma ltb_ge x y : Decimal.ltb x y = false <-> y <= x.
Proof.
  unfold Decimal.ltb. rewrite negb_false_iff. apply Qle_bool_iff.
Qed.

Lemma leb_le x y : Decimal.leb x y = true <-> x <= y.
Proof. apply Qle_bool_iff. Qed.

Lemma leb_gt x y : Decimal.leb x y = false <-> y < x.
Proof.
  unfold Decimal.leb. split; intros H.
  - apply Qnot_le_lt. intro C. apply Qle_bool_iff in C. congruence.
  - destruct (Qle_bool x y) eqn:E; [|reflexivity].
    apply Qle_bool_iff in E. lra.
Qed.

Lemma eqb_eq x y : Decimal.eqb x y = true <-> x == y.
Proof. apply Qeq_bool_iff. Qed.

Lemma mem_In x l : mem x l = true <-> In x l.
Proof.
  unfold mem. rewrite existsb_exists. split.
  - intros [y [Hy E]]. apply String.eqb_eq in E. subst. exact Hy.
  - intros H. exists x. split; [exact H|apply String.eqb_refl].
Qed.

Lemma mem_false x l : mem x l = false <-> ~ In x l.
Proof.
  rewrite <- mem_In. destruct (mem x l); split; congruence.
Qed.

Lemma dict_get_In {V} (d : dict V) k :
  dict_get d k <> None <-> In k (dict_keys d).
Proof.
  induction d as [|[k' v] r IH]; simpl.
  - split; [congruence|tauto].
  - destruct (String.eqb k' k) eqn:E.
    + apply String.eqb_eq in E. split; [auto|congruence].
    + apply String.eqb_neq in E. rewrite IH. split; [auto|intros [H|H]; congruence].
Qed.

Lemma dict_mem_In {V} (d : dict V) k :
  dict_mem d k = true <-> In k (dict_keys d).
Proof.
  rewrite <- dict_get_In. unfold dict_mem.
  destruct (dict_get d k); split; congruence.
Qed.

Lemma dict_get_not_In {V} (d : dict V) k :
  ~ In k (dict_keys d) -> dict_get d k = None.
Proof.
  intros H. destruct (dict_get d k) eqn:E; [|reflexivity].
  exfalso. apply H. apply dict_get_In. congruence.
Qed.

Lemma dict_keys_set {V} (d : dict V) k v :
  dict_keys (dict_set d k v) =
  if dict_mem d k then dict_keys d else dict_keys d ++ [k].
Proof.
  unfold dict_mem. induction d as [|[k' v'] r IH]; simpl; [reflexivity|].
  destruct (String.eqb k' k) eqn:E; simpl; [reflexivity|].
  rewrite IH. destruct (dict_get r k); reflexivity.
Qed.

Lemma dict_get_set {V} (d : dict V) k v k' :
  dict_get (dict_set d k v) k' =
  if String.eqb k k' then Some v else dict_get d k'.
Proof.
  induction d as [|[k0 v0] r IH]; simpl.
  - reflexivity.
  - destruct (String.eqb k0 k) eqn:E; simpl.
    + apply String.eqb_eq in E. subst k0.
      destruct (String.eqb k k'); reflexivity.
    + rewrite IH. destruct (String.eqb k0 k') eqn:E2; [|reflexivity].
      apply String.eqb_eq in E2. subst k0. rewrite String.eqb_sym, E. reflexivity.
Qed.

Lemma dict_keys_alter {V} (f : V -> V) d k :
  dict_keys (dict_alter f d k) = dict_keys d.
Proof.
  induction d as [|[k' v'] r IH]; simpl; [reflexivity|].
  destruct (String.eqb k' k); simpl; [reflexivity|]. rewrite IH. reflexivity.
Qed.

Lemma dict_get_alter {V} (f : V -> V) d k k' :
  dict_get (dict_alter f d k) k' =
  if String.eqb k k' then option_map f (dict_get d k') else dict_get d k'.
Proof.
  induction d as [|[k0 v0] r IH]; simpl.
  - destruct (String.eqb k k'); reflexivity.
  - destruct (String.eqb k0 k) eqn:E; simpl.
    + apply String.eqb_eq in E. subst k0.
      destruct (String.eqb k k'); reflexivity.
    + rewrite IH. destruct (String.eqb k0 k') eqn:E2; [|reflexivity].
      apply String.eqb_eq in E2. subst k0. rewrite String.eqb_sym, E. reflexivity.
Qed.

Lemma NoDup_keys_set {V} (d : dict V) k v :
  NoDup (dict_keys d) -> NoDup (dict_keys (dict_set d k v)).
Proof.
  intros H. rewrite dict_keys_set. destruct (dict_mem d k) eqn:E; [exact H|].
  assert (~ In k (dict_keys d)).
  { intro C. apply dict_mem_In in C. congruence. }
  apply NoDup_app; [exact H|repeat constructor; simpl; tauto|].
  intros x Hx [<-|[]]. tauto.
Qed.

(** A loop whose body never raises on the elements of the list returns. *)
Lemma for_each_inv {A S} (P : S -> Prop) (l : list A) body (s : S) :
  P s ->
  (forall a s0, In a l -> P s0 -> exists s1, body a s0 = Ok s1 /\ P s1) ->
  exists s', for_each l body s = Ok s' /\ P s'.
Proof.
  revert s. induction l as [|a r IH]; intros s Hs Hb; simpl.
  - eauto.
  - destruct (Hb a s (or_introl eq_refl) Hs) as [s1 [E P1]]. rewrite E. simpl.
    apply IH; [exact P1|]. intros a0 s0 Ha. apply Hb. right. exact Ha.
Qed.

(* ===================================================================== *)
(** * Validation *)
(* ===================================================================== *)

Import DecimalFacts.
Local Open Scope Q_scope.

Lemma check_payers_ok p :
  Transaction.check_payers p = Ok tt <-> Forall (fun a => 0 < a) (dict_values p).
Proof.
  induction p as [|[uid a] r IH]; simpl.
  - split; [constructor|reflexivity].
  - destruct (Decimal.leb a 0) eqn:E.
    + apply leb_le in E. split; [discriminate|].
      intros H. inversion H; subst. lra.
    + apply leb_gt in E. rewrite IH. split.
      * intros H. constructor; assumption.
      * intros H. inversion H. assumption.
Qed.

Lemma check_payers_raise p :
  (exists uid a, In (uid, a) p /\ a <= 0) ->
  exists uid a, In (uid, a) p /\ a <= 0 /\
                Transaction.check_payers p = Raise (PaymentNotPositive uid).
Proof.
  induction p as [|[uid a] r IH]; intros [u [b [Hin Hb]]]; simpl in *.
  - contradiction.
  - destruct (Decimal.leb a 0) eqn:E.
    + apply leb_le in E. exists uid, a. auto.
    + apply leb_gt in E. destruct Hin as [H|H].
      * inversion H; subst. lra.
      * destruct IH as [u' [a' [H1 [H2 H3]]]]; [eauto|].
        exists u', a'. auto.
Qed.

Lemma check_payers_cases p :
  Transaction.check_payers p = Ok tt \/
  exists uid, Transaction.check_payers p = Raise (PaymentNotPositive uid).
Proof.
  induction p as [|[uid a] r IH]; simpl; [auto|].
  destruct (Decimal.leb a 0); [right; eauto|exact IH].
Qed.

Lemma is_empty_false {A} (l : list A) : l <> [] -> is_empty l = false.
Proof. destruct l; [congruence|reflexivity]. Qed.

(** [_validate] raises exactly when an invariant is violated, and then with a
    validation error. *)
Lemma validate_raises t :
  invariant_violated t ->
  exists e, Transaction._validate t = Raise e /\ is_validation_error e = true.
Proof.
  unfold Transaction._validate.
  destruct (check_payers_cases (payers t)) as [Hok|[uid Hr]].
  - rewrite Hok. simpl. intros [[u [a [Hin Ha]]]|[[Hs [Hd Hv]]|[Hs [Hd Hv]]]].
    + apply check_payers_ok in Hok. exfalso.
      assert (In a (dict_values (payers t))).
      { unfold dict_values. change a with (snd (u, a)). apply in_map. exact Hin. }
      rewrite Forall_forall in Hok. specialize (Hok a H). lra.
    + rewrite Hs. simpl. rewrite (is_empty_false Hd). simpl.
      apply ltb_lt in Hv. rewrite Hv. simpl. eexists. split; reflexivity.
    + rewrite Hs. simpl. rewrite (is_empty_false Hd). simpl.
      apply ltb_lt in Hv. rewrite Hv. eexists. split; reflexivity.
  - intros _. rewrite Hr. simpl. eexists. split; reflexivity.
Qed.

Lemma validate_error_kind t e :
  Transaction._validate t = Raise e ->
  is_validation_error e = true /\ invariant_violated t.
Proof.
  unfold Transaction._validate.
  destruct (check_payers_cases (payers t)) as [Hok|[uid Hr]].
  - rewrite Hok. simpl.
    destruct (split_type t) eqn:Hs; simpl.
    + discriminate.
    + destruct (split_details t) as [|d ds] eqn:Hd; simpl; [discriminate|].
      destruct (Decimal.ltb eps _) eqn:Hv; simpl; [|discriminate].
      intros H. inversion H; subst. split; [reflexivity|].
      right. left. split; [exact Hs|]. rewrite Hd. split; [discriminate|].
      apply ltb_lt. exact Hv.
    + destruct (split_details t) as [|d ds] eqn:Hd; simpl; [discriminate|].
      destruct (Decimal.ltb eps _) eqn:Hv; simpl; [|discriminate].
      intros H. inversion H; subst. split; [reflexivity|].
      right. right. split; [exact Hs|]. rewrite Hd. split; [discriminate|].
      apply ltb_lt. exact Hv.
  - rewrite Hr. simpl. intros H. inversion H; subst. split; [reflexivity|].
    left. destruct (check_payers_ok (payers t)) as [_ Hback].
    destruct (Exists_dec (fun a => a <= 0) (dict_values (payers t))) as [He|Hne].
    + intros a. destruct (Qlt_le_dec 0 a); [right; lra|left; assumption].
    + apply Exists_exists in He. destruct He as [a [Hin Ha]].
      unfold dict_values in Hin. apply in_map_iff in Hin.
      destruct Hin as [[u b] [Eb Hin]]. simpl in Eb. subst b.
      exists u, a. auto.
    + exfalso. rewrite Hback in Hr; [discriminate|].
      apply Forall_forall. intros a Ha.
      destruct (Qlt_le_dec 0 a) as [L|L]; [exact L|].
      exfalso. apply Hne. apply Exists_exists. exists a. auto.
Qed.

Lemma init_eq tid descr dt pay parts st details :
  Transaction.__init__ tid descr dt pay parts st details =
  match Transaction._validate (make_transaction tid descr dt pay parts st details) with
  | Ok _ => Ok (make_transaction tid descr dt pay parts st details)
  | Raise e => Raise e
  end.
Proof.
  unfold Transaction.__init__, make_transaction, bind.
  destruct (Transaction._validate _); reflexivity.
Qed.

Lemma find_unknown_some (us : dict User) (ids : list string) :
  (exists uid, In uid ids /\ ~ In uid (dict_keys us)) ->
  exists uid, find (fun u => negb (dict_mem us u)) ids = Some uid /\
              In uid ids /\ ~ In uid (dict_keys us).
Proof.
  intros [u [Hin Hun]].
  destruct (find (fun u => negb (dict_mem us u)) ids) as [uid|] eqn:E.
  - exists uid. split; [reflexivity|]. apply find_some in E. destruct E as [H1 H2].
    split; [exact H1|]. intro C. apply dict_mem_In in C. rewrite C in H2. discriminate.
  - exfalso. pose proof (find_none _ _ E u Hin) as H. simpl in H.
    apply negb_false_iff in H. apply dict_mem_In in H. contradiction.
Qed.

Lemma find_unknown_none (us : dict User) (ids : list string) :
  (forall uid, In uid ids -> In uid (dict_keys us)) ->
  find (fun u => negb (dict_mem us u)) ids = None.
Proof.
  intros H. destruct (find _ ids) as [uid|] eqn:E; [|reflexivity].
  apply find_some in E. destruct E as [H1 H2]. apply H in H1.
  apply dict_mem_In in H1. rewrite H1 in H2. discriminate.
Qed.


(** Without rounding, the deviation [_validate] computes is the exact one. *)
Lemma guard_exact (vals : list Q) (target : Q) :
  deviation_exact vals target ->
  Decimal.abs (Decimal.sub (Decimal.sum vals) target)
  == Qabs (Decimal.exact_sum vals - target).
Proof.
  intros [Hs Hr].
  assert (E : Decimal.sub (Decimal.sum vals) target
              == Decimal.exact_sum vals - target).
  { unfold Decimal.sub.
    rewrite (@ctx_round_wd (Decimal.sum vals - target)
                           (Decimal.exact_sum vals - target))
      by (rewrite Hs; reflexivity).
    apply ctx_round_exact, Hr. }
  unfold Decimal.abs.
  rewrite (@ctx_round_wd (Qabs (Decimal.sub (Decimal.sum vals) target))
                         (Qabs (Decimal.exact_sum vals - target)))
    by (rewrite E; reflexivity).
  apply ctx_round_exact, representable_abs, Hr.
Qed.

(** Where nothing is rounded, the guard of the code fires exactly when the
    invariant of the specification is violated. *)
Lemma exact_violation_iff t :
  sums_exact t -> (invariant_violated t <-> spec_invariant_violated t).
Proof.
  unfold sums_exact, invariant_violated, spec_invariant_violated. intros Hx.
  split; (intros [H|[[Hs [Hd Hv]]|[Hs [Hd Hv]]]];
          [left; exact H
          |right; left; rewrite Hs in Hx;
           (split; [exact Hs|split; [exact Hd|]])
          |right; right; rewrite Hs in Hx;
           (split; [exact Hs|split; [exact Hd|]])]).
  - rewrite <- (guard_exact Hx). exact Hv.
  - rewrite <- (guard_exact Hx). exact Hv.
  - rewrite (guard_exact Hx). exact Hv.
  - rewrite (guard_exact Hx). exact Hv.
Qed.

(* ===================================================================== *)
(** * Sums and payments *)
(* ===================================================================== *)

Local Open Scope Q_scope.

Lemma add_wd x x' y y' : x == x' -> y == y' -> Decimal.add x y = Decimal.add x' y'.
Proof. intros H1 H2. unfold Decimal.add. apply ctx_round_wd. rewrite H1, H2. reflexivity. Qed.

Lemma sub_wd x x' y y' : x == x' -> y == y' -> Decimal.sub x y = Decimal.sub x' y'.
Proof. intros H1 H2. unfold Decimal.sub. apply ctx_round_wd. rewrite H1, H2. reflexivity. Qed.

Lemma sub_0_r x : Decimal.representable x -> Decimal.sub x 0 == x.
Proof.
  intros H. unfold Decimal.sub. rewrite (@ctx_round_wd (x - 0) x) by lra.
  apply ctx_round_exact, H.
Qed.

Lemma add_0_r x : Decimal.representable x -> Decimal.add x 0 == x.
Proof.
  intros H. unfold Decimal.add. rewrite (@ctx_round_wd (x + 0) x) by lra.
  apply ctx_round_exact, H.
Qed.


Lemma fold_add_wd (l l' : list Q) : Forall2 Qeq l l' ->
  forall acc acc', acc == acc' ->
  fold_left Decimal.add l acc == fold_left Decimal.add l' acc'.
Proof.
  induction 1 as [|x x' r r' Hx Hr IH]; intros acc acc' Ha; simpl.
  - exact Ha.
  - apply IH. rewrite (add_wd Ha Hx). reflexivity.
Qed.

Lemma sum_wd (l l' : list Q) : Forall2 Qeq l l' -> Decimal.sum l == Decimal.sum l'.
Proof. intros H. apply fold_add_wd; [exact H|reflexivity]. Qed.

Lemma fold_add_representable (l : list Q) acc :
  Decimal.representable acc -> Decimal.representable (fold_left Decimal.add l acc).
Proof.
  revert acc. induction l as [|x r IH]; intros acc Ha; simpl; [exact Ha|].
  apply IH. apply ctx_round_representable.
Qed.

Lemma sum_representable (l : list Q) : Decimal.representable (Decimal.sum l).
Proof. apply fold_add_representable, representable_0. Qed.

(** With distinct keys, looking up each key in turn yields the values. *)
Lemma dict_get_keys {V} (d : dict V) :
  NoDup (dict_keys d) ->
  map (dict_get d) (dict_keys d) = map Some (dict_values d).
Proof.
  induction d as [|[k v] r IH]; intros Hnd; simpl; [reflexivity|].
  inversion Hnd as [|? ? Hk Hr]; subst.
  rewrite String.eqb_refl. f_equal. rewrite <- (IH Hr).
  apply map_ext_in. intros k' Hk'.
  destruct (String.eqb k k') eqn:E; [|reflexivity].
  apply String.eqb_eq in E. subst. contradiction.
Qed.

Lemma payments_of_keys (t : Transaction) :
  NoDup (dict_keys (payers t)) ->
  map (Transaction.get_user_payment t) (dict_keys (payers t))
  = dict_values (payers t).
Proof.
  intros H. unfold Transaction.get_user_payment.
  rewrite <- (map_map (dict_get (payers t))
                      (fun o => match o with Some a => a | None => 0 end)).
  rewrite (dict_get_keys _ H), map_map. simpl. apply map_id.
Qed.

Lemma payment_not_payer (t : Transaction) uid :
  ~ In uid (dict_keys (payers t)) -> Transaction.get_user_payment t uid = 0.
Proof.
  intros H. unfold Transaction.get_user_payment.
  rewrite (dict_get_not_In _ _ H). reflexivity.
Qed.

(* ===================================================================== *)
(** * Users: serialization and registration *)
(* ===================================================================== *)

(** X1. [from_dict] reads the three keys wherever they stand in the dict and
    ignores every other entry; in particular it inverts [to_dict]. *)
Theorem user_from_dict_reads (data : dict string) (uid nm mail : string) :
  dict_get data "user_id" = Some uid ->
  dict_get data "name" = Some nm ->
  dict_get data "email" = Some mail ->
  User.from_dict data = Ok {| user_id := uid; name := nm; email := mail |} /\
  User.from_dict (User.to_dict {| user_id := uid; name := nm; email := mail |})
  = Ok {| user_id := uid; name := nm; email := mail |}.
Proof.
  intros H1 H2 H3. split; [|reflexivity].
  unfold User.from_dict, subscript. rewrite H1, H2, H3. reflexivity.
Qed.

Lemma user_from_dict_reads_witness :
  User.from_dict [("email", "a@x.org"); ("extra", "1"); ("name", "Ann");
                  ("user_id", "u1")]
  = Ok {| user_id := "u1"; name := "Ann"; email := "a@x.org" |} /\
  User.from_dict (User.to_dict {| user_id := "u1"; name := "Ann";
                                 email := "a@x.org" |})
  = Ok {| user_id := "u1"; name := "Ann"; email := "a@x.org" |}.
Proof.
  apply (@user_from_dict_reads
           [("email", "a@x.org"); ("extra", "1"); ("name", "Ann");
            ("user_id", "u1")] "u1" "Ann" "a@x.org"); reflexivity.
Defined.

(** X2. [from_dict] raises exactly when one of the three keys is missing, and
    the [KeyError] names the first missing one in the order user_id, name,
    email. *)
Theorem user_from_dict_missing (data : dict string) (e : error) :
  User.from_dict data = Raise e <->
  (dict_get data "user_id" = None /\ e = KeyError "user_id") \/
  (dict_get data "user_id" <> None /\ dict_get data "name" = None /\
   e = KeyError "name") \/
  (dict_get data "user_id" <> None /\ dict_get data "name" <> None /\
   dict_get data "email" = None /\ e = KeyError "email").
Proof.
  unfold User.from_dict, subscript.
  destruct (dict_get data "user_id") as [a|]; simpl.
  - destruct (dict_get data "name") as [b|]; simpl.
    + destruct (dict_get data "email") as [c|]; simpl.
      * split; [discriminate|].
        intros [[H _]|[[_ [H _]]|[_ [_ [H _]]]]]; discriminate.
      * split.
        -- intros H. inversion H. right. right. repeat split; congruence.
        -- intros [[H _]|[[_ [H _]]|[_ [_ [_ H]]]]]; try discriminate.
           subst. reflexivity.
    + split.
      * intros H. inversion H. right. left. repeat split; congruence.
      * intros [[H _]|[[_ [_ H]]|[_ [H _]]]]; try discriminate; try congruence.
  - split.
    + intros H. inversion H. left. auto.
    + intros [[_ H]|[[H _]|[H _]]]; try congruence.
Qed.

Lemma dict_values_set_fresh {V} (d : dict V) k v :
  ~ In k (dict_keys d) -> dict_values (dict_set d k v) = dict_values d ++ [v].
Proof.
  induction d as [|[k' v'] r IH]; simpl; intros H; [reflexivity|].
  destruct (String.eqb k' k) eqn:E.
  - apply String.eqb_eq in E. subst. tauto.
  - simpl. rewrite IH by tauto. reflexivity.
Qed.

Lemma dict_set_fresh {V} (d : dict V) k v :
  ~ In k (dict_keys d) -> dict_set d k v = d ++ [(k, v)].
Proof.
  induction d as [|[k' v'] r IH]; simpl; intros H; [reflexivity|].
  destruct (String.eqb k' k) eqn:E.
  - apply String.eqb_eq in E. subst. tauto.
  - rewrite IH by tauto. reflexivity.
Qed.

Lemma length_dict_set_known {V} (d : dict V) k v :
  In k (dict_keys d) -> List.length (dict_set d k v) = List.length d.
Proof.
  induction d as [|[k' v'] r IH]; simpl; intros H; [contradiction|].
  destruct (String.eqb k' k) eqn:E; simpl; [reflexivity|].
  apply String.eqb_neq in E. rewrite IH; [reflexivity|].
  destruct H; [congruence|assumption].
Qed.

(** X3. Registering a user makes it retrievable under its id with an empty list
    of transactions, leaves every other user and all transactions as they
    were, and marks the cached matrix as stale. *)
Theorem add_user_registers (m : ExpenseManager) (uid nm mail other : string) :
  let m' := fst (ExpenseManager.add_user m uid nm mail) in
  let u := {| user_id := uid; name := nm; email := mail |} in
  snd (ExpenseManager.add_user m uid nm mail) = u /\
  ExpenseManager.get_user m' uid = Some u /\
  ExpenseManager.get_user_transactions m' uid = [] /\
  (other <> uid ->
   ExpenseManager.get_user m' other = ExpenseManager.get_user m other /\
   ExpenseManager.get_user_transactions m' other
   = ExpenseManager.get_user_transactions m other) /\
  transactions m' = transactions m /\
  _cache_valid m' = false.
Proof.
  cbv zeta. unfold ExpenseManager.add_user, ExpenseManager.get_user,
    ExpenseManager.get_user_transactions. cbn [fst snd users transactions
    user_transactions _cache_valid].
  rewrite !dict_get_set, String.eqb_refl.
  repeat split.
  - destruct (String.eqb uid other) eqn:E; [|reflexivity].
    apply String.eqb_eq in E. congruence.
  - destruct (String.eqb uid other) eqn:E; [|reflexivity].
    apply String.eqb_eq in E. congruence.
Qed.

(** X4. [get_all_users] lists the users in the order of their registration: a
    registration under a new id appends the new user to the list. *)
Theorem get_all_users_appends (m : ExpenseManager) (uid nm mail : string) :
  ~ In uid (dict_keys (users m)) ->
  get_all_users (fst (ExpenseManager.add_user m uid nm mail))
  = get_all_users m ++ [{| user_id := uid; name := nm; email := mail |}].
Proof.
  intros H. unfold get_all_users, ExpenseManager.add_user.
  cbn [fst users]. apply dict_values_set_fresh, H.
Qed.

Lemma get_all_users_appends_witness :
  get_all_users
    (fst (ExpenseManager.add_user
            (fst (ExpenseManager.add_user ExpenseManager.__init__ "u1" "Ann" "a"))
            "u2" "Bob" "b"))
  = get_all_users
      (fst (ExpenseManager.add_user ExpenseManager.__init__ "u1" "Ann" "a"))
    ++ [{| user_id := "u2"; name := "Bob"; email := "b" |}].
Proof.
  apply (@get_all_users_appends
           (fst (ExpenseManager.add_user ExpenseManager.__init__ "u1" "Ann" "a"))
           "u2" "Bob" "b").
  vm_compute. intros [C|C]; [discriminate|exact C].
Defined.

(* ===================================================================== *)
(** * Adding transactions: storage and index *)
(* ===================================================================== *)


Lemma set_add_In x y s : In y (set_add x s) <-> y = x \/ In y s.
Proof.
  unfold set_add. destruct (mem x s) eqn:E.
  - apply mem_In in E. split; [auto|]. intros [->|H]; assumption.
  - rewrite in_app_iff. simpl. split; intros H; intuition congruence.
Qed.

Lemma set_add_NoDup x s : NoDup s -> NoDup (set_add x s).
Proof.
  intros H. unfold set_add. destruct (mem x s) eqn:E; [exact H|].
  apply mem_false in E. apply NoDup_app; [exact H|repeat constructor; simpl; tauto|].
  intros y Hy [<-|[]]. contradiction.
Qed.

Lemma to_set_fold l : forall s,
  (forall y, In y (fold_left (fun s x => set_add x s) l s) <-> In y l \/ In y s) /\
  (NoDup s -> NoDup (fold_left (fun s x => set_add x s) l s)).
Proof.
  induction l as [|x r IH]; intros s; simpl.
  - split; [intros y; tauto|auto].
  - destruct (IH (set_add x s)) as [H1 H2]. split.
    + intros y. rewrite H1, set_add_In. intuition congruence.
    + intros Hs. apply H2, set_add_NoDup, Hs.
Qed.

Lemma to_set_In l y : In y (to_set l) <-> In y l.
Proof.
  unfold to_set. destruct (to_set_fold l []) as [H _]. rewrite H. simpl. tauto.
Qed.

Lemma to_set_NoDup l : NoDup (to_set l).
Proof. unfold to_set. apply to_set_fold. constructor. Qed.

Lemma index_add_get tid ut uid uid' :
  dict_get (ExpenseManager.index_add tid ut uid) uid' =
  if String.eqb uid uid' then
    Some (match dict_get ut uid with
          | Some s => set_add tid s
          | None => [tid]
          end)
  else dict_get ut uid'.
Proof.
  unfold ExpenseManager.index_add.
  destruct (dict_get ut uid); rewrite dict_get_set; reflexivity.
Qed.

Lemma index_fold_other tid ids : forall ut uid,
  ~ In uid ids ->
  dict_get (fold_left (ExpenseManager.index_add tid) ids ut) uid = dict_get ut uid.
Proof.
  induction ids as [|x r IH]; intros ut uid H; simpl; [reflexivity|].
  rewrite IH by (simpl in H; tauto). rewrite index_add_get.
  destruct (String.eqb x uid) eqn:E; [|reflexivity].
  apply String.eqb_eq in E. subst. simpl in H. tauto.
Qed.

Lemma index_fold_here tid ids : forall ut uid,
  NoDup ids -> In uid ids ->
  dict_get (fold_left (ExpenseManager.index_add tid) ids ut) uid =
  Some (match dict_get ut uid with
        | Some s => set_add tid s
        | None => [tid]
        end).
Proof.
  induction ids as [|x r IH]; intros ut uid Hnd Hin; simpl; [contradiction|].
  inversion Hnd as [|? ? Hx Hr]; subst. destruct Hin as [->|Hin].
  - rewrite index_fold_other by exact Hx.
    rewrite index_add_get, String.eqb_refl. reflexivity.
  - rewrite (IH _ _ Hr Hin). rewrite index_add_get.
    destruct (String.eqb x uid) eqn:E; [|reflexivity].
    apply String.eqb_eq in E. subst. contradiction.
Qed.

Lemma involves_In uid t :
  involves uid t = true <-> In uid (dict_keys (payers t) ++ participants t).
Proof.
  unfold involves. rewrite orb_true_iff, mem_In, dict_mem_In, in_app_iff. tauto.
Qed.



Lemma dict_get_value {V} (d : dict V) k v :
  dict_get d k = Some v -> In v (dict_values d).
Proof.
  induction d as [|[k' v'] r IH]; simpl; [discriminate|].
  destruct (String.eqb k' k); [intros H; inversion H; auto|auto].
Qed.

Lemma lookup_other_transaction (ts : dict Transaction) tid t (s : list string) :
  ~ In tid s ->
  flat_map (fun x => match dict_get (dict_set ts tid t) x with
                     | Some t0 => [t0]
                     | None => []
                     end) s
  = flat_map (fun x => match dict_get ts x with
                       | Some t0 => [t0]
                       | None => []
                       end) s.
Proof.
  induction s as [|x r IH]; intros H; simpl; [reflexivity|].
  rewrite IH by (simpl in H; tauto). rewrite dict_get_set.
  destruct (String.eqb tid x) eqn:E; [|reflexivity].
  apply String.eqb_eq in E. subst. simpl in H. tauto.
Qed.

(** X6. A successful [add_transaction] under a new transaction id adds the
    transaction to the [get_user_transactions] list of each of its payers and
    participants, once, and leaves the list of every other id as it was.  The
    index is taken to name stored transactions only, as it does in every
    ledger built through the operations; the lists are compared up to order,
    the index being a set. *)
Theorem add_transaction_indexes (m : ExpenseManager) (tid descr dt : string)
    (pay : dict Q) (parts : list string) (st : SplitType) (details : dict Q)
    (uid : string) :
  let t := make_transaction tid descr dt pay parts st details in
  let out := ExpenseManager.add_transaction m tid descr dt pay parts st details in
  snd out = Ok t ->
  ~ In tid (dict_keys (transactions m)) ->
  (forall u s x, dict_get (user_transactions m) u = Some s -> In x s ->
                 In x (dict_keys (transactions m))) ->
  if involves uid t
  then Permutation (ExpenseManager.get_user_transactions (fst out) uid)
                   (t :: ExpenseManager.get_user_transactions m uid)
  else ExpenseManager.get_user_transactions (fst out) uid
       = ExpenseManager.get_user_transactions m uid.
Proof.
  cbv zeta. unfold ExpenseManager.add_transaction.
  destruct (find _ _) as [u0|]; [discriminate|].
  rewrite init_eq.
  destruct (Transaction._validate _) as [[]|e]; [|discriminate].
  cbn [fst snd]. intros _ Hfresh Hidx.
  set (t := make_transaction tid descr dt pay parts st details).
  unfold ExpenseManager.get_user_transactions.
  cbn [transactions user_transactions].
  destruct (involves uid t) eqn:Hinv.
  - apply involves_In in Hinv. cbn [payers participants t make_transaction] in Hinv.
    rewrite (@index_fold_here tid _ (user_transactions m) uid
               (to_set_NoDup _) (proj2 (to_set_In _ uid) Hinv)).
    destruct (dict_get (user_transactions m) uid) as [s|] eqn:Hs.
    + assert (Hn : ~ In tid s) by (intro C; apply Hfresh; eapply Hidx; eauto).
      unfold set_add. destruct (mem tid s) eqn:Em; [apply mem_In in Em; tauto|].
      rewrite flat_map_app. rewrite (@lookup_other_transaction (transactions m) tid t s Hn).
      cbn [flat_map]. rewrite dict_get_set, String.eqb_refl.
      cbn [app]. apply Permutation_sym, Permutation_cons_append.
    + cbn [flat_map]. rewrite dict_get_set, String.eqb_refl. cbn [app].
      apply Permutation_refl.
  - assert (Hn : ~ In uid (to_set (dict_keys pay ++ parts))).
    { rewrite to_set_In. intro C.
      assert (involves uid t = true) by (apply involves_In; exact C). congruence. }
    rewrite (@index_fold_other tid _ (user_transactions m) uid Hn).
    destruct (dict_get (user_transactions m) uid) as [s|] eqn:Hs; [|reflexivity].
    apply lookup_other_transaction. intro C. apply Hfresh. eapply Hidx; eauto.
Qed.

Lemma add_transaction_indexes_witness :
  let m := fst (dinner "A" "B" "C") in
  let t := make_transaction "t2" "taxi" "2024-01-02" [("B", 20%Q)] ["A"; "B"]
             EQUAL [] in
  let out := ExpenseManager.add_transaction m "t2" "taxi" "2024-01-02"
               [("B", 20%Q)] ["A"; "B"] EQUAL [] in
  if involves "A" t
  then Permutation (ExpenseManager.get_user_transactions (fst out) "A")
                   (t :: ExpenseManager.get_user_transactions m "A")
  else ExpenseManager.get_user_transactions (fst out) "A"
       = ExpenseManager.get_user_transactions m "A".
Proof.
  apply (@add_transaction_indexes (fst (dinner "A" "B" "C")) "t2" "taxi"
           "2024-01-02" [("B", 20%Q)] ["A"; "B"] EQUAL [] "A").
  - vm_compute. reflexivity.
  - vm_compute. intros [C|C]; [discriminate|exact C].
  - intros u s x Hs Hx.
    assert (E : s = ["t1"]).
    { apply dict_get_value in Hs. vm_compute in Hs.
      destruct Hs as [E|[E|[E|[]]]]; symmetry; exact E. }
    subst s. vm_compute. destruct Hx as [<-|[]]. auto.
Defined.

(* ===================================================================== *)
(** * Invariants of reachable ledgers *)
(* ===================================================================== *)

Lemma In_keys_set {V} (d : dict V) k v k' :
  In k' (dict_keys (dict_set d k v)) <-> k' = k \/ In k' (dict_keys d).
Proof.
  rewrite <- !dict_get_In, dict_get_set.
  destruct (String.eqb k k') eqn:E.
  - apply String.eqb_eq in E. subst. split; [auto|congruence].
  - apply String.eqb_neq in E. split; [auto|]. intros [H|H]; congruence.
Qed.

Lemma dict_get_Some_In {V} (d : dict V) k v :
  dict_get d k = Some v -> In k (dict_keys d).
Proof. intros H. apply dict_get_In. congruence. Qed.

Lemma invariant_init : ledger_invariant ExpenseManager.__init__.
Proof.
  constructor; simpl; try constructor; try discriminate; try contradiction.
Qed.

Lemma invariant_add_user m uid nm mail :
  ledger_invariant m -> ~ In uid (dict_keys (users m)) ->
  ledger_invariant (fst (ExpenseManager.add_user m uid nm mail)).
Proof.
  intros [I1 I2 I3 I4 I5 I6] Hfresh. unfold ExpenseManager.add_user.
  constructor; cbn [fst users transactions user_transactions].
  - apply NoDup_keys_set, I1.
  - exact I2.
  - intros tid t Ht. destruct (I3 tid t Ht) as [A [B C]].
    repeat split; [exact A|exact B|].
    intros u Hu. apply In_keys_set. right. apply C, Hu.
  - intros u s. rewrite dict_get_set.
    destruct (String.eqb uid u) eqn:E.
    + apply String.eqb_eq in E. subst u. intros H. inversion H; subst s.
      split; [apply In_keys_set; auto|]. split; [constructor|contradiction].
    + intros Hs. destruct (I4 u s Hs) as [A [B C]].
      split; [apply In_keys_set; auto|]. split; [exact B|exact C].
  - intros tid t u Ht Hu. rewrite dict_get_set.
    destruct (String.eqb uid u) eqn:E.
    + apply String.eqb_eq in E. subst u. exfalso. apply Hfresh.
      destruct (I3 tid t Ht) as [_ [_ C]]. apply C, Hu.
    + apply (I5 tid t u Ht Hu).
  - intros u Hu. rewrite dict_get_set.
    destruct (String.eqb uid u) eqn:E; [discriminate|].
    apply I6. apply In_keys_set in Hu. destruct Hu as [->|Hu]; [|exact Hu].
    rewrite String.eqb_refl in E. discriminate.
Qed.

Lemma invariant_add_transaction m tid descr dt pay parts st details :
  ledger_invariant m -> ~ In tid (dict_keys (transactions m)) ->
  ledger_invariant
    (fst (ExpenseManager.add_transaction m tid descr dt pay parts st details)).
Proof.
  intros Hinv Hfresh. pose proof Hinv as [I1 I2 I3 I4 I5 I6].
  unfold ExpenseManager.add_transaction.
  destruct (find _ _) as [u0|] eqn:F; [exact Hinv|].
  rewrite init_eq.
  destruct (Transaction._validate _) as [[]|e] eqn:V; [|exact Hinv].
  set (t := make_transaction tid descr dt pay parts st details) in *.
  assert (Hknown : forall u, involves u t = true -> In u (dict_keys (users m))).
  { intros u Hu. apply involves_In in Hu.
    pose proof (find_none _ _ F u Hu) as H. simpl in H.
    apply negb_false_iff in H. apply dict_mem_In. exact H. }
  assert (Hold : forall x t0, dict_get (transactions m) x = Some t0 ->
                 dict_get (dict_set (transactions m) tid t) x = Some t0).
  { intros x t0 Hx. rewrite dict_get_set.
    destruct (String.eqb tid x) eqn:E; [|exact Hx].
    apply String.eqb_eq in E. subst x. exfalso. apply Hfresh.
    apply (dict_get_Some_In _ _ Hx). }
  assert (Hidx : forall u,
    dict_get (fold_left (ExpenseManager.index_add tid)
                (to_set (dict_keys pay ++ parts)) (user_transactions m)) u
    = if involves u t
      then Some (match dict_get (user_transactions m) u with
                 | Some s => set_add tid s
                 | None => [tid]
                 end)
      else dict_get (user_transactions m) u).
  { intros u. destruct (involves u t) eqn:E.
    - apply involves_In in E.
      apply index_fold_here; [apply to_set_NoDup|apply to_set_In; exact E].
    - apply index_fold_other. rewrite to_set_In. intro C.
      assert (involves u t = true) by (apply involves_In; exact C). congruence. }
  constructor; cbn [fst users transactions user_transactions].
  - exact I1.
  - apply NoDup_keys_set, I2.
  - intros x t0. rewrite dict_get_set.
    destruct (String.eqb tid x) eqn:E.
    + apply String.eqb_eq in E. subst x. intros H. inversion H; subst t0.
      repeat split; [exact V|exact Hknown].
    + apply I3.
  - intros u s. rewrite Hidx. destruct (involves u t) eqn:E.
    + intros H. inversion H; subst s. clear H.
      split; [apply Hknown, E|].
      destruct (dict_get (user_transactions m) u) as [s0|] eqn:Hs.
      * destruct (I4 u s0 Hs) as [_ [B C]]. split; [apply set_add_NoDup, B|].
        intros x Hx. apply set_add_In in Hx. destruct Hx as [->|Hx].
        -- exists t. rewrite dict_get_set, String.eqb_refl. auto.
        -- destruct (C x Hx) as [t0 [H1 H2]]. exists t0. auto.
      * split; [repeat constructor; simpl; tauto|].
        intros x [<-|[]]. exists t. rewrite dict_get_set, String.eqb_refl. auto.
    + intros Hs. destruct (I4 u s Hs) as [A [B C]].
      split; [exact A|]. split; [exact B|].
      intros x Hx. destruct (C x Hx) as [t0 [H1 H2]]. exists t0. auto.
  - intros x t0 u. rewrite dict_get_set.
    destruct (String.eqb tid x) eqn:E.
    + apply String.eqb_eq in E. subst x. intros H Hu. inversion H; subst t0.
      rewrite Hidx, Hu. eexists. split; [reflexivity|].
      destruct (dict_get (user_transactions m) u);
        [apply set_add_In; auto|simpl; auto].
    + intros Hx Hu. destruct (I5 x t0 u Hx Hu) as [s [H1 H2]].
      rewrite Hidx, H1. destruct (involves u t).
      * eexists. split; [reflexivity|]. apply set_add_In. auto.
      * eauto.
  - intros u Hu. rewrite Hidx. destruct (involves u t); [discriminate|].
    apply I6, Hu.
Qed.

Lemma get_balances_fields m :
  let m' := fst (ExpenseManager.get_balances m) in
  users m' = users m /\ transactions m' = transactions m /\
  user_transactions m' = user_transactions m.
Proof.
  cbv zeta. unfold ExpenseManager.get_balances.
  destruct (negb (_cache_valid m)); [|auto].
  destruct (ExpenseManager._calculate_balances m); auto.
Qed.

Lemma invariant_fields m m' :
  users m' = users m -> transactions m' = transactions m ->
  user_transactions m' = user_transactions m ->
  ledger_invariant m -> ledger_invariant m'.
Proof.
  intros E1 E2 E3 [I1 I2 I3 I4 I5 I6].
  constructor; rewrite ?E1, ?E2, ?E3; assumption.
Qed.

Lemma get_user_balance_fields m uid :
  let m' := fst (ExpenseManager.get_user_balance m uid) in
  users m' = users m /\ transactions m' = transactions m /\
  user_transactions m' = user_transactions m.
Proof.
  cbv zeta. unfold ExpenseManager.get_user_balance.
  destruct (negb (dict_mem (users m) uid)); [auto|].
  pose proof (get_balances_fields m) as H.
  destruct (ExpenseManager.get_balances m) as [m' r]. exact H.
Qed.

Lemma reachable_invariant m : reachable m -> ledger_invariant m.
Proof.
  induction 1 as [|m uid nm mail _ IH Hf|m tid descr dt pay parts st details _ IH Hf _
                  |m _ IH|m uid _ IH].
  - apply invariant_init.
  - apply invariant_add_user; assumption.
  - apply invariant_add_transaction; assumption.
  - destruct (get_balances_fields m) as [E1 [E2 E3]].
    apply (@invariant_fields m _ E1 E2 E3 IH).
  - destruct (get_user_balance_fields m uid) as [E1 [E2 E3]].
    apply (@invariant_fields m _ E1 E2 E3 IH).
Qed.

Lemma dict_get_of_In {V} (d : dict V) k v :
  NoDup (dict_keys d) -> In (k, v) d -> dict_get d k = Some v.
Proof.
  induction d as [|[k' v'] r IH]; simpl; intros Hnd Hin; [contradiction|].
  inversion Hnd as [|? ? Hk Hr]; subst. destruct Hin as [H|H].
  - inversion H; subst. rewrite String.eqb_refl. reflexivity.
  - destruct (String.eqb k' k) eqn:E.
    + apply String.eqb_eq in E. subst k'. exfalso. apply Hk.
      change k with (fst (k, v)). apply in_map. exact H.
    + apply IH; assumption.
Qed.

Lemma dict_get_In_pair {V} (d : dict V) k v :
  dict_get d k = Some v -> In (k, v) d.
Proof.
  induction d as [|[k' v'] r IH]; simpl; [discriminate|].
  destruct (String.eqb k' k) eqn:E.
  - apply String.eqb_eq in E. intros H. inversion H; subst. auto.
  - auto.
Qed.

Lemma stored_values_NoDup (ts : dict Transaction) :
  NoDup (dict_keys ts) ->
  (forall k t, dict_get ts k = Some t -> transaction_id t = k) ->
  NoDup (dict_values ts).
Proof.
  intros Hnd Hid. apply (NoDup_map_inv transaction_id).
  assert (E : map transaction_id (dict_values ts) = dict_keys ts).
  { unfold dict_values, dict_keys. rewrite map_map. apply map_ext_in.
    intros [k t] Hin. simpl. apply Hid. apply dict_get_of_In; assumption. }
  rewrite E. exact Hnd.
Qed.

Lemma listed_NoDup (ts : dict Transaction) (s : list string) :
  NoDup s ->
  (forall k t, dict_get ts k = Some t -> transaction_id t = k) ->
  NoDup (flat_map (fun x => match dict_get ts x with
                            | Some t => [t]
                            | None => []
                            end) s).
Proof.
  intros Hnd Hid. induction Hnd as [|x r Hx Hr IH]; simpl; [constructor|].
  destruct (dict_get ts x) as [t|] eqn:E; [|exact IH].
  simpl. constructor; [|exact IH].
  intro C. apply in_flat_map in C. destruct C as [y [Hy Ht]].
  destruct (dict_get ts y) as [t'|] eqn:E'; [|contradiction].
  destruct Ht as [->|[]]. apply Hid in E. apply Hid in E'. congruence.
Qed.

(** X7. In every ledger built through the operations, each stored transaction is
    filed under its own id, satisfies the transaction invariants and names
    registered users only. *)
Theorem stored_transactions_valid (m : ExpenseManager) (tid : string)
    (t : Transaction) :
  reachable m ->
  ExpenseManager.get_transaction m tid = Some t ->
  transaction_id t = tid /\ ~ invariant_violated t /\
  forall uid, In uid (dict_keys (payers t) ++ participants t) ->
              ExpenseManager.get_user m uid <> None.
Proof.
  intros Hr Ht. destruct (reachable_invariant Hr) as [_ _ I3 _ _ _].
  destruct (I3 tid t Ht) as [A [B C]]. split; [exact A|]. split.
  - intros V. destruct (validate_raises V) as [e [E _]]. congruence.
  - intros uid Hu. unfold ExpenseManager.get_user. apply dict_get_In.
    apply C, involves_In, Hu.
Qed.

Lemma dinner_reachable : reachable (fst (dinner "A" "B" "C")).
Proof.
  unfold dinner, ledger_of. apply reach_add_transaction.
  - repeat apply reach_add_user; try apply reach_init;
      vm_compute; intuition discriminate.
  - vm_compute. tauto.
  - repeat constructor. simpl. tauto.
Qed.

Lemma stored_transactions_valid_witness :
  transaction_id dinner_transaction = "t1" /\
  ~ invariant_violated dinner_transaction /\
  forall uid,
    In uid (dict_keys (payers dinner_transaction)
            ++ participants dinner_transaction) ->
    ExpenseManager.get_user (fst (dinner "A" "B" "C")) uid <> None.
Proof.
  apply (@stored_transactions_valid (fst (dinner "A" "B" "C")) "t1"
           dinner_transaction).
  - exact dinner_reachable.
  - vm_compute. reflexivity.
Defined.

(** X8. In every ledger built through the operations, the index agrees with a
    scan of the transactions: [get_user_transactions] returns, each once and
    in some order, exactly the stored transactions in which the user is a
    payer or a participant; for an id that is not a user it returns the
    empty list. *)
Theorem index_agrees_with_scan (m : ExpenseManager) (uid : string) :
  reachable m ->
  Permutation (ExpenseManager.get_user_transactions m uid)
              (filter (involves uid) (dict_values (transactions m))) /\
  (ExpenseManager.get_user m uid = None ->
   ExpenseManager.get_user_transactions m uid = []).
Proof.
  intros Hr. destruct (reachable_invariant Hr) as [I1 I2 I3 I4 I5 I6].
  assert (Hid : forall k t, dict_get (transactions m) k = Some t ->
                            transaction_id t = k).
  { intros k t H. apply (I3 k t H). }
  unfold ExpenseManager.get_user_transactions, ExpenseManager.get_user. split.
  - apply NoDup_Permutation.
    + destruct (dict_get (user_transactions m) uid) as [s|] eqn:Hs;
        [|constructor].
      apply listed_NoDup; [apply (I4 uid s Hs)|exact Hid].
    + apply NoDup_filter, stored_values_NoDup; assumption.
    + intros t. rewrite filter_In. split.
      * destruct (dict_get (user_transactions m) uid) as [s|] eqn:Hs;
          [|contradiction].
        intros H. apply in_flat_map in H. destruct H as [x [Hx Ht]].
        destruct (I4 uid s Hs) as [_ [_ C]]. destruct (C x Hx) as [t0 [H1 H2]].
        rewrite H1 in Ht. destruct Ht as [->|[]]. split; [|exact H2].
        apply (@dict_get_value _ (transactions m) x t H1).
      * intros [Hin Hinv]. unfold dict_values in Hin. apply in_map_iff in Hin.
        destruct Hin as [[k t0] [Et Hin]]. simpl in Et. subst t0.
        pose proof (@dict_get_of_In _ (transactions m) k t I2 Hin) as Hk.
        destruct (I5 k t uid Hk Hinv) as [s [H1 H2]]. rewrite H1.
        apply in_flat_map. exists k. split; [exact H2|]. rewrite Hk. simpl. auto.
  - intros Hn. destruct (dict_get (user_transactions m) uid) as [s|] eqn:Hs;
      [|reflexivity].
    exfalso. destruct (I4 uid s Hs) as [A _]. apply dict_get_In in A. congruence.
Qed.

Lemma index_agrees_with_scan_witness :
  Permutation
    (ExpenseManager.get_user_transactions (fst (dinner "A" "B" "C")) "B")
    (filter (involves "B") (dict_values (transactions (fst (dinner "A" "B" "C")))))
  /\ (ExpenseManager.get_user (fst (dinner "A" "B" "C")) "B" = None ->
      ExpenseManager.get_user_transactions (fst (dinner "A" "B" "C")) "B" = []).
Proof.
  apply (@index_agrees_with_scan (fst (dinner "A" "B" "C")) "B").
  exact dinner_reachable.
Defined.

(* ===================================================================== *)
(** * Transactions without payers *)
(* ===================================================================== *)

Lemma for_each_raises_at_most {A S} e0 (l : list A) body :
  (forall a (s : S), In a l -> raises_at_most e0 (body a s)) ->
  forall s, raises_at_most e0 (for_each l body s).
Proof.
  induction l as [|a r IH]; intros Hb s; simpl; [exact I|].
  pose proof (Hb a s (or_introl eq_refl)) as H.
  destruct (body a s) as [s'|e]; simpl; [|exact H].
  apply IH. intros a0 s0 Ha. apply Hb. right. exact Ha.
Qed.


Lemma balance_raises_at_most t uid :
  raises_at_most UnsupportedOperand (Transaction.get_user_balance t uid).
Proof.
  unfold Transaction.get_user_balance.
  destruct (Transaction.get_user_share t uid); simpl; auto.
Qed.

Lemma total_positive_raises_at_most t uid :
  raises_at_most UnsupportedOperand (ExpenseManager.total_positive t uid).
Proof.
  unfold ExpenseManager.total_positive. apply for_each_raises_at_most.
  intros a s _. pose proof (balance_raises_at_most t a) as H.
  destruct (Transaction.get_user_balance t a); simpl; auto.
Qed.

Lemma other_step_raises_at_most t uid ub other bal :
  raises_at_most UnsupportedOperand (ExpenseManager.other_step t uid ub other bal).
Proof.
  unfold ExpenseManager.other_step.
  destruct (negb (String.eqb other uid)); [|exact I].
  pose proof (balance_raises_at_most t other) as H.
  destruct (Transaction.get_user_balance t other) as [ob|e]; simpl; [|exact H].
  destruct (Decimal.ltb ob 0 && Decimal.ltb 0 ub); [|exact I].
  pose proof (total_positive_raises_at_most t other) as H'.
  destruct (ExpenseManager.total_positive t other) as [tp|e]; simpl; [|exact H'].
  destruct (Decimal.ltb 0 tp); exact I.
Qed.

Lemma user_step_raises_at_most us t uid bal :
  raises_at_most UnsupportedOperand (ExpenseManager.user_step us t uid bal).
Proof.
  unfold ExpenseManager.user_step.
  pose proof (balance_raises_at_most t uid) as H.
  destruct (Transaction.get_user_balance t uid) as [ub|e]; simpl; [|exact H].
  destruct (negb (Decimal.eqb ub 0)); [|exact I].
  apply for_each_raises_at_most. intros a s _. apply other_step_raises_at_most.
Qed.

(** The only exception [_calculate_balances] can raise is the [TypeError]
    of a balance. *)
Lemma calculate_balances_raises_at_most m :
  raises_at_most UnsupportedOperand (ExpenseManager._calculate_balances m).
Proof.
  unfold ExpenseManager._calculate_balances. apply for_each_raises_at_most.
  intros t s _. apply for_each_raises_at_most.
  intros a s0 _. apply user_step_raises_at_most.
Qed.





(* ===================================================================== *)
(** * The settlement loop *)
(* ===================================================================== *)

Import DecimalFacts.

Section ListSet.

Variable A : Type.






End ListSet.

Local Open Scope Z_scope.





Local Open Scope Q_scope.
















(* ===================================================================== *)
(** * Failed additions leave the ledger untouched *)
(* ===================================================================== *)

(** Counterexample to C4 as worded.  A pays 10^30; the EXACT details give A
    10^30 and B 1, so their sum is 1 more than the total.  The builtin [sum]
    rounds 10^30 + 1 to 28 significant digits, that is to 10^30, [_validate]
    sees no deviation, and the transaction is stored: no validation error is
    raised although the details are off by more than [eps]. *)
Lemma add_transaction_accepts_rounded_sum :
  let m := fst (dinner "A" "B" "C") in
  let t := make_transaction "t2" "bill" "2024-01-02"
             [("A", 1000000000000000000000000000000%Q)] ["A"; "B"] EXACT
             [("A", 1000000000000000000000000000000%Q); ("B", 1%Q)] in
  let out := ExpenseManager.add_transaction m "t2" "bill" "2024-01-02"
               [("A", 1000000000000000000000000000000%Q)] ["A"; "B"] EXACT
               [("A", 1000000000000000000000000000000%Q); ("B", 1%Q)] in
  (forall uid, In uid (dict_keys (payers t) ++ participants t) ->
               In uid (dict_keys (users m))) /\
  spec_invariant_violated t /\
  (Decimal.exact_sum (dict_values (split_details t))
   - Transaction.total_amount t == 1)%Q /\
  snd out = Ok t /\
  ExpenseManager.get_transaction (fst out) "t2" = Some t /\
  ~ (exists e, snd out = Raise e /\ is_validation_error e = true).
Proof.
  cbv zeta. split; [|split; [|split; [|split; [|split]]]].
  - vm_compute. intros uid [C|[C|[C|C]]]; auto; contradiction.
  - right. right. split; [reflexivity|]. split; [discriminate|].
    vm_compute. reflexivity.
  - vm_compute. reflexivity.
  - vm_compute. reflexivity.
  - vm_compute. reflexivity.
  - intros [e [E _]]. vm_compute in E. discriminate.
Qed.

(** C4, amended.  [add_transaction] raises the referential error, naming a
    missing id, whenever a payer or participant id is unknown (the
    transaction is not even constructed: this holds whatever the amounts and
    details are).  With all ids known it raises a validation error whenever
    a check of [_validate] fails: a payer amount that is not positive, or
    non-empty PERCENTAGE / EXACT details whose sum as [_validate] computes it
    (Decimal additions, difference and absolute value, each rounded to 28
    significant digits) is more than [eps] away from 100 / the total amount;
    where that computation rounds nothing, this is whenever the invariant of
    the specification is violated.  A call that raises returns the manager
    it was given: users, transactions, index, cache and validity flag are
    those before the call, and the error is one of these two kinds. *)
Theorem add_transaction_failure (m : ExpenseManager) (tid descr dt : string)
    (pay : dict Q) (parts : list string) (st : SplitType) (details : dict Q) :
  let t := make_transaction tid descr dt pay parts st details in
  let out := ExpenseManager.add_transaction m tid descr dt pay parts st details in
  ((exists uid, In uid (dict_keys pay ++ parts) /\ ~ In uid (dict_keys (users m))) ->
   exists uid, In uid (dict_keys pay ++ parts) /\ ~ In uid (dict_keys (users m)) /\
               out = (m, Raise (UserDoesNotExist uid))) /\
  ((forall uid, In uid (dict_keys pay ++ parts) -> In uid (dict_keys (users m))) ->
   invariant_violated t ->
   exists e, out = (m, Raise e) /\ is_validation_error e = true) /\
  (forall e, snd out = Raise e ->
   fst out = m /\
   (is_referential_error e = true \/ is_validation_error e = true)) /\
  ((forall uid, In uid (dict_keys pay ++ parts) -> In uid (dict_keys (users m))) ->
   sums_exact t -> spec_invariant_violated t ->
   exists e, out = (m, Raise e) /\ is_validation_error e = true).
Proof.
  cbv zeta.
  assert (Hguard :
    (forall uid, In uid (dict_keys pay ++ parts) -> In uid (dict_keys (users m))) ->
    invariant_violated (make_transaction tid descr dt pay parts st details) ->
    exists e,
      ExpenseManager.add_transaction m tid descr dt pay parts st details
      = (m, Raise e) /\ is_validation_error e = true).
  { intros Hk Hv. unfold ExpenseManager.add_transaction.
    rewrite (@find_unknown_none (users m) _ Hk), init_eq.
    destruct (validate_raises Hv) as [e [E K]]. rewrite E. eauto. }
  split; [|split; [exact Hguard|split]].
  - unfold ExpenseManager.add_transaction.
    intros H. destruct (@find_unknown_some (users m) _ H) as [uid [E [H1 H2]]].
    exists uid. rewrite E. auto.
  - unfold ExpenseManager.add_transaction. intros e H. split.
    + destruct (find _ _); [reflexivity|].
      destruct (Transaction.__init__ _ _ _ _ _ _ _); [discriminate|reflexivity].
    + destruct (find _ _) as [uid|].
      * simpl in H. inversion H; subst. left. reflexivity.
      * rewrite init_eq in H.
        destruct (Transaction._validate _) eqn:E; [discriminate|].
        simpl in H. inversion H; subst. right.
        apply (validate_error_kind _ E).
  - intros Hk Hx Hv. apply Hguard; [exact Hk|].
    apply (@exact_violation_iff _ Hx). exact Hv.
Qed.

(** The scenarios of the specification: an unknown user id, percentages
    that sum to 101, and exact amounts 5 + 6 against a payment of 10. *)
Lemma add_transaction_failure_witness :
  let m := fst (dinner "A" "B" "C") in
  (exists uid,
     In uid (dict_keys [("A", 10%Q)] ++ ["A"; "Z"]) /\
     ~ In uid (dict_keys (users m)) /\
     ExpenseManager.add_transaction m "t2" "taxi" "2024-01-02"
       [("A", 10%Q)] ["A"; "Z"] EQUAL [] = (m, Raise (UserDoesNotExist uid))) /\
  (exists e,
     ExpenseManager.add_transaction m "t2" "taxi" "2024-01-02"
       [("A", 10%Q)] ["A"; "B"] PERCENTAGE [("A", 50%Q); ("B", 51%Q)]
     = (m, Raise e) /\ is_validation_error e = true) /\
  (exists e,
     ExpenseManager.add_transaction m "t3" "taxi" "2024-01-02"
       [("A", 10%Q)] ["A"; "B"] EXACT [("A", 5%Q); ("B", 6%Q)]
     = (m, Raise e) /\ is_validation_error e = true).
Proof.
  cbv zeta. split; [|split].
  - destruct (add_transaction_failure (fst (dinner "A" "B" "C")) "t2" "taxi"
                "2024-01-02" [("A", 10%Q)] ["A"; "Z"] EQUAL []) as [H _].
    apply H. exists "Z". split; [simpl; auto|].
    vm_compute. intros [C|[C|[C|C]]]; try discriminate; exact C.
  - destruct (add_transaction_failure (fst (dinner "A" "B" "C")) "t2" "taxi"
                "2024-01-02" [("A", 10%Q)] ["A"; "B"] PERCENTAGE
                [("A", 50%Q); ("B", 51%Q)]) as [_ [H _]].
    apply H.
    + vm_compute. intros uid [C|[C|[C|C]]]; auto; contradiction.
    + right. left. split; [reflexivity|]. split; [discriminate|].
      vm_compute. reflexivity.
  - destruct (add_transaction_failure (fst (dinner "A" "B" "C")) "t3" "taxi"
                "2024-01-02" [("A", 10%Q)] ["A"; "B"] EXACT
                [("A", 5%Q); ("B", 6%Q)]) as [_ [_ [_ H]]].
    apply H.
    + vm_compute. intros uid [C|[C|[C|C]]]; auto; contradiction.
    + split; [vm_compute; reflexivity|].
      exists 1%Z, 0%Z. split; vm_compute; reflexivity.
    + right. right. split; [reflexivity|]. split; [discriminate|].
      vm_compute. reflexivity.
Defined.

(* ===================================================================== *)
(** * The dinner scenario *)
(* ===================================================================== *)

(** C9. With users A, B, C and the single transaction "A pays 90 for
    A, B, C, split equally", the balances within the transaction are +60 for
    A and -30 for each of B and C, and [get_simplified_settlements] returns
    exactly the settlements (B, A, 30) and (C, A, 30); B comes first when B
    was registered before C, and C comes first otherwise (the stable sort
    keeps the registration order of equal balances). *)
Theorem dinner_scenario :
  snd (dinner "A" "B" "C") = Ok dinner_transaction /\
  Transaction.get_user_balance dinner_transaction "A" = Ok (60 # 1)%Q /\
  Transaction.get_user_balance dinner_transaction "B" = Ok (-30 # 1)%Q /\
  Transaction.get_user_balance dinner_transaction "C" = Ok (-30 # 1)%Q /\
  ExpenseManager.get_simplified_settlements (fst (dinner "A" "B" "C"))
    = Some (Ok [("B", "A", (30 # 1)%Q); ("C", "A", (30 # 1)%Q)]) /\
  ExpenseManager.get_simplified_settlements (fst (dinner "A" "C" "B"))
    = Some (Ok [("C", "A", (30 # 1)%Q); ("B", "A", (30 # 1)%Q)]).
Proof. repeat split; vm_compute; reflexivity. Qed.

(* ===================================================================== *)
(** * Empty split details *)
(* ===================================================================== *)

(** C10. A PERCENTAGE or EXACT transaction with empty split details is
    constructed without any check of a sum (only the payer amounts are
    tested); every user's share in it is 0, every balance is the user's
    payment, and the balances of the payers add up to the total amount, not
    to zero.  The payer amounts are taken to have at most 28 significant
    digits, so that copying one through [paid - 0] does not round it. *)
Theorem empty_details_unvalidated (tid descr dt : string) (pay : dict Q)
    (parts : list string) (st : SplitType) :
  st <> EQUAL ->
  Forall (fun a => 0 < a)%Q (dict_values pay) ->
  NoDup (dict_keys pay) ->
  Forall Decimal.representable (dict_values pay) ->
  let t := make_transaction tid descr dt pay parts st [] in
  Transaction.__init__ tid descr dt pay parts st [] = Ok t /\
  (forall uid, Transaction.get_user_share t uid = Dec 0) /\
  (forall uid, Transaction.get_user_balance t uid
               = Ok (Decimal.sub (Transaction.get_user_payment t uid) 0)) /\
  (forall uid, ~ In uid (dict_keys pay) ->
               Transaction.get_user_balance t uid = Ok 0%Q) /\
  (Decimal.sum (map (fun uid => Decimal.sub (Transaction.get_user_payment t uid) 0)
                    (dict_keys pay))
   == Transaction.total_amount t)%Q.
Proof.
  intros Hst Hpos Hnd Hrep t.
  assert (Hshare : forall uid, Transaction.get_user_share t uid = Dec 0).
  { intros uid. unfold Transaction.get_user_share. simpl.
    destruct (negb (mem uid parts)); [reflexivity|].
    destruct st; [congruence|reflexivity|reflexivity]. }
  assert (Hbal : forall uid, Transaction.get_user_balance t uid
               = Ok (Decimal.sub (Transaction.get_user_payment t uid) 0)).
  { intros uid. unfold Transaction.get_user_balance. rewrite Hshare. reflexivity. }
  repeat split.
  - rewrite init_eq. fold t. unfold Transaction._validate.
    apply check_payers_ok in Hpos.
    change (payers t) with pay. change (split_details t) with (@nil (string * Q)).
    rewrite Hpos. cbn [bind is_empty negb]. rewrite !andb_false_r.
    reflexivity.
  - exact Hshare.
  - exact Hbal.
  - intros uid Hn. rewrite Hbal. rewrite (payment_not_payer t uid Hn). reflexivity.
  - unfold Transaction.total_amount.
    pose proof (payments_of_keys t Hnd) as Hp. change (payers t) with pay in *.
    rewrite <- Hp.
    rewrite <- (map_map (Transaction.get_user_payment t)
                        (fun a => Decimal.sub a 0)).
    apply sum_wd. rewrite <- Hp in Hrep. clear Hp.
    induction Hrep as [|a l Ha Hl IH]; cbn [map]; constructor.
    + apply sub_0_r, Ha.
    + exact IH.
Qed.

Lemma empty_details_unvalidated_witness :
  let t := make_transaction "t1" "expense" "2024-01-01" [("A", 90%Q)]
             ["A"; "B"] EXACT [] in
  Transaction.__init__ "t1" "expense" "2024-01-01" [("A", 90%Q)] ["A"; "B"]
    EXACT [] = Ok t /\
  (forall uid, Transaction.get_user_share t uid = Dec 0) /\
  (forall uid, Transaction.get_user_balance t uid
               = Ok (Decimal.sub (Transaction.get_user_payment t uid) 0)) /\
  (forall uid, ~ In uid ["A"] -> Transaction.get_user_balance t uid = Ok 0%Q) /\
  (Decimal.sum (map (fun uid => Decimal.sub (Transaction.get_user_payment t uid) 0)
                    ["A"])
   == Transaction.total_amount t)%Q.
Proof.
  apply (@empty_details_unvalidated "t1" "expense" "2024-01-01" [("A", 90%Q)]
           ["A"; "B"] EXACT).
  - discriminate.
  - repeat constructor.
  - repeat constructor. simpl. tauto.
  - repeat constructor. exists 90%Z, 0%Z. split; vm_compute; reflexivity.
Defined.
